(** * cr-sqlite-js: the Primary Link ([PrimarySocket]) and the Connection Broker

    A shallow embedding of
    - [packages/ws-litefs/src/internal/PrimarySocket.ts], the multiplexed
      link of a replica to the primary, and
    - [ConnectionBroker] (ws-server), the per-websocket dispatcher,
    followed by the properties of their request tables, teardown paths,
    heartbeat and dispatch rules.

    Conventions.  JavaScript numbers used as request ids and timestamps are
    integers here ([Z]).  A [Map] is an association list in insertion order.
    Every call that leaves the class (socket writes, promise settlement, the
    owner callback, session methods, [console.error]) is recorded in a log
    field of the state, so that "is invoked", "settles" and "is logged" are
    statements about those logs.  Event listeners are functions from state
    to state, the clock and the answers of the collaborators being
    arguments; an [async] listener is cut at its [await]s, so that other
    events can be placed between its parts.  Calls of [logger] are left
    out. *)

From Stdlib Require Import ZArith List String Bool Lia Permutation.
Import ListNotations.
Local Open Scope string_scope.
Local Open Scope list_scope.
Local Open Scope Z_scope.

(** ** Messages of [@vlcn.io-community/ws-common] *)

Module Wire.

Inductive Tag :=
| AnnouncePresence | Changes | RejectChanges | StartStreaming
| CreateDbOnPrimary | ApplyChangesOnPrimary
| CreateDbOnPrimaryResponse | ApplyChangesOnPrimaryResponse
| Ping | Pong | Err.

Definition Tag_eqb (a b : Tag) : bool :=
  match a, b with
  | AnnouncePresence, AnnouncePresence | Changes, Changes
  | RejectChanges, RejectChanges | StartStreaming, StartStreaming
  | CreateDbOnPrimary, CreateDbOnPrimary
  | ApplyChangesOnPrimary, ApplyChangesOnPrimary
  | CreateDbOnPrimaryResponse, CreateDbOnPrimaryResponse
  | ApplyChangesOnPrimaryResponse, ApplyChangesOnPrimaryResponse
  | Ping, Ping | Pong, Pong | Err, Err => true
  | _, _ => false
  end.

(** A decoded message object: its discriminant, its request id (read only
    for the request/response kinds) and its remaining fields, which the two
    classes never inspect ([err] for an [Err] message). *)
Record Msg := { _tag : Tag; _reqid : Z; payload : string }.

(** [decode] belongs to ws-common; what it does with the bytes is taken as
    given: either a message, or an exception. *)
Inductive Decoded :=
| DecodesTo (msg : Msg)
| DecodeThrows (reason : string).

End Wire.
Import Wire.

(** ** [Map<number, V>] in insertion order *)

Module JsMap.
Section Ops.
Context {V : Type}.

Fixpoint get (k : Z) (m : list (Z * V)) : option V :=
  match m with
  | [] => None
  | (k', v) :: m' => if k =? k' then Some v else get k m'
  end.

Definition has (k : Z) (m : list (Z * V)) : bool :=
  match get k m with Some _ => true | None => false end.

(** [set] keeps the position of a key that is already present and appends a
    new one. *)
Fixpoint set (k : Z) (v : V) (m : list (Z * V)) : list (Z * V) :=
  match m with
  | [] => [(k, v)]
  | (k', v') :: m' => if k =? k' then (k', v) :: m' else (k', v') :: set k v m'
  end.

Definition delete (k : Z) (m : list (Z * V)) : list (Z * V) :=
  filter (fun e => negb (fst e =? k)) m.

Definition keys (m : list (Z * V)) : list Z := map fst m.

End Ops.
End JsMap.

(** ** PrimarySocket *)

Module PrimarySocket.

(** A promise handed out by [sendCreateDb] / [sendApplyChanges], named by
    the order of creation. *)
Definition PromiseId := nat.

(** One call of a promise's [resolve] or [reject]. *)
Inductive Settlement :=
| Resolve (msg : Msg)
| Reject (msg : Msg)
| RejectWriteError (e : string).

Inductive Exn :=
| ResponseForUnknownRequest (reqid : Z)
| ErrorForUnknownRequest (reqid : Z)
| UnexpectedMessageType (tag : Tag).

Record t := {
  currentPrimaryInstanceId : string;
  port : Z;
  appName : option string;
  (** The values of the two tables are the closures made by
      [sendCreateDb] and [sendApplyChanges]; a closure is known by the
      promise whose [resolve] / [reject] pair it holds, and its body is
      [createDbResolver], respectively [applyChangesResolver]. *)
  createDbRequests : list (Z * PromiseId);
  applyChangesRequests : list (Z * PromiseId);
  closed : bool;
  lastPong : Z;
  (** [setInterval] handle: the period while the timer runs, [None] once
      [clearInterval] was called. *)
  pingPongHandle : option Z;
  (** the socket: where it connects, whether [destroy()] was called on it,
      and the messages passed to [write(encode(..))]. *)
  socketHost : string;
  socketDestroyed : bool;
  socketWrites : list Msg;
  (** calls of the owner's [onPrematurelyClosed]. *)
  prematurelyClosedCalls : nat;
  (** calls of [resolve] / [reject], oldest first, and the number of
      promises handed out. *)
  settlements : list (PromiseId * Settlement);
  promises : nat
}.

Definition with_createDbRequests (m : list (Z * PromiseId)) (s : t) : t :=
  {| currentPrimaryInstanceId := currentPrimaryInstanceId s; port := port s;
     appName := appName s; createDbRequests := m;
     applyChangesRequests := applyChangesRequests s; closed := closed s;
     lastPong := lastPong s; pingPongHandle := pingPongHandle s;
     socketHost := socketHost s; socketDestroyed := socketDestroyed s;
     socketWrites := socketWrites s;
     prematurelyClosedCalls := prematurelyClosedCalls s;
     settlements := settlements s; promises := promises s |}.

Definition with_applyChangesRequests (m : list (Z * PromiseId)) (s : t) : t :=
  {| currentPrimaryInstanceId := currentPrimaryInstanceId s; port := port s;
     appName := appName s; createDbRequests := createDbRequests s;
     applyChangesRequests := m; closed := closed s;
     lastPong := lastPong s; pingPongHandle := pingPongHandle s;
     socketHost := socketHost s; socketDestroyed := socketDestroyed s;
     socketWrites := socketWrites s;
     prematurelyClosedCalls := prematurelyClosedCalls s;
     settlements := settlements s; promises := promises s |}.

Definition with_closed (b : bool) (s : t) : t :=
  {| currentPrimaryInstanceId := currentPrimaryInstanceId s; port := port s;
     appName := appName s; createDbRequests := createDbRequests s;
     applyChangesRequests := applyChangesRequests s; closed := b;
     lastPong := lastPong s; pingPongHandle := pingPongHandle s;
     socketHost := socketHost s; socketDestroyed := socketDestroyed s;
     socketWrites := socketWrites s;
     prematurelyClosedCalls := prematurelyClosedCalls s;
     settlements := settlements s; promises := promises s |}.

Definition with_lastPong (now : Z) (s : t) : t :=
  {| currentPrimaryInstanceId := currentPrimaryInstanceId s; port := port s;
     appName := appName s; createDbRequests := createDbRequests s;
     applyChangesRequests := applyChangesRequests s; closed := closed s;
     lastPong := now; pingPongHandle := pingPongHandle s;
     socketHost := socketHost s; socketDestroyed := socketDestroyed s;
     socketWrites := socketWrites s;
     prematurelyClosedCalls := prematurelyClosedCalls s;
     settlements := settlements s; promises := promises s |}.

(** [clearInterval(this.#pingPongHandle)] *)
Definition clearInterval (s : t) : t :=
  {| currentPrimaryInstanceId := currentPrimaryInstanceId s; port := port s;
     appName := appName s; createDbRequests := createDbRequests s;
     applyChangesRequests := applyChangesRequests s; closed := closed s;
     lastPong := lastPong s; pingPongHandle := None;
     socketHost := socketHost s; socketDestroyed := socketDestroyed s;
     socketWrites := socketWrites s;
     prematurelyClosedCalls := prematurelyClosedCalls s;
     settlements := settlements s; promises := promises s |}.

(** [this.#socket.destroy()] *)
Definition socket_destroy (s : t) : t :=
  {| currentPrimaryInstanceId := currentPrimaryInstanceId s; port := port s;
     appName := appName s; createDbRequests := createDbRequests s;
     applyChangesRequests := applyChangesRequests s; closed := closed s;
     lastPong := lastPong s; pingPongHandle := pingPongHandle s;
     socketHost := socketHost s; socketDestroyed := true;
     socketWrites := socketWrites s;
     prematurelyClosedCalls := prematurelyClosedCalls s;
     settlements := settlements s; promises := promises s |}.

(** [this.#socket.write(encode(msg), cb)]: the call itself; a failing
    write reaches [cb] later, see [createDbWriteFailed]. *)
Definition socket_write (msg : Msg) (s : t) : t :=
  {| currentPrimaryInstanceId := currentPrimaryInstanceId s; port := port s;
     appName := appName s; createDbRequests := createDbRequests s;
     applyChangesRequests := applyChangesRequests s; closed := closed s;
     lastPong := lastPong s; pingPongHandle := pingPongHandle s;
     socketHost := socketHost s; socketDestroyed := socketDestroyed s;
     socketWrites := socketWrites s ++ [msg];
     prematurelyClosedCalls := prematurelyClosedCalls s;
     settlements := settlements s; promises := promises s |}.

(** [this.#onPrematurelyClosed()]: the owner's callback is recorded, not
    interpreted. *)
Definition onPrematurelyClosed (s : t) : t :=
  {| currentPrimaryInstanceId := currentPrimaryInstanceId s; port := port s;
     appName := appName s; createDbRequests := createDbRequests s;
     applyChangesRequests := applyChangesRequests s; closed := closed s;
     lastPong := lastPong s; pingPongHandle := pingPongHandle s;
     socketHost := socketHost s; socketDestroyed := socketDestroyed s;
     socketWrites := socketWrites s;
     prematurelyClosedCalls := S (prematurelyClosedCalls s);
     settlements := settlements s; promises := promises s |}.

(** a call of [resolve(..)] or [reject(..)] of promise [p] *)
Definition settle (p : PromiseId) (o : Settlement) (s : t) : t :=
  {| currentPrimaryInstanceId := currentPrimaryInstanceId s; port := port s;
     appName := appName s; createDbRequests := createDbRequests s;
     applyChangesRequests := applyChangesRequests s; closed := closed s;
     lastPong := lastPong s; pingPongHandle := pingPongHandle s;
     socketHost := socketHost s; socketDestroyed := socketDestroyed s;
     socketWrites := socketWrites s;
     prematurelyClosedCalls := prematurelyClosedCalls s;
     settlements := settlements s ++ [(p, o)]; promises := promises s |}.

(** [new Promise(..)]: hands out the next promise. *)
Definition newPromise (s : t) : PromiseId * t :=
  (promises s,
   {| currentPrimaryInstanceId := currentPrimaryInstanceId s; port := port s;
      appName := appName s; createDbRequests := createDbRequests s;
      applyChangesRequests := applyChangesRequests s; closed := closed s;
      lastPong := lastPong s; pingPongHandle := pingPongHandle s;
      socketHost := socketHost s; socketDestroyed := socketDestroyed s;
      socketWrites := socketWrites s;
      prematurelyClosedCalls := prematurelyClosedCalls s;
      settlements := settlements s; promises := S (promises s) |}).

(** [#connect]: the host the socket is pointed at. *)
Definition connectHost (appName : option string) (instanceId : string) : string :=
  match appName with
  | None => instanceId
  | Some app => (instanceId ++ ".vm." ++ app ++ ".internal")%string
  end.

(** The constructor, run at time [now]. *)
Definition new (port : Z) (appName : option string)
    (currentPrimaryInstanceId : string) (now : Z) : t :=
  {| currentPrimaryInstanceId := currentPrimaryInstanceId; port := port;
     appName := appName; createDbRequests := [];
     applyChangesRequests := []; closed := false;
     lastPong := now; pingPongHandle := Some 1000;
     socketHost := connectHost appName currentPrimaryInstanceId;
     socketDestroyed := false; socketWrites := [];
     prematurelyClosedCalls := 0%nat;
     settlements := []; promises := 0%nat |}.

(** The body of the closure registered by [sendCreateDb] for promise [p].
    Its parameter is called [msg] like the request, which it shadows: the key
    deleted is the request id of the message being delivered. *)
Definition createDbResolver (p : PromiseId) (msg : Msg) (s : t) : t :=
  let s := with_createDbRequests
             (JsMap.delete (_reqid msg) (createDbRequests s)) s in
  if Tag_eqb (_tag msg) Err then settle p (Reject msg) s
  else settle p (Resolve msg) s.

(** The same for [sendApplyChanges]. *)
Definition applyChangesResolver (p : PromiseId) (msg : Msg) (s : t) : t :=
  let s := with_applyChangesRequests
             (JsMap.delete (_reqid msg) (applyChangesRequests s)) s in
  if Tag_eqb (_tag msg) Err then settle p (Reject msg) s
  else settle p (Resolve msg) s.

Definition sendCreateDb (msg : Msg) (s : t) : PromiseId * t :=
  let '(p, s) := newPromise s in
  let s := with_createDbRequests
             (JsMap.set (_reqid msg) p (createDbRequests s)) s in
  (p, socket_write msg s).

(** The write callback of [sendCreateDb], called with an error [e]. *)
Definition createDbWriteFailed (msg : Msg) (p : PromiseId) (e : string) (s : t) : t :=
  settle p (RejectWriteError e)
    (with_createDbRequests (JsMap.delete (_reqid msg) (createDbRequests s)) s).

Definition sendApplyChanges (msg : Msg) (s : t) : PromiseId * t :=
  let '(p, s) := newPromise s in
  let s := with_applyChangesRequests
             (JsMap.set (_reqid msg) p (applyChangesRequests s)) s in
  (p, socket_write msg s).

Definition applyChangesWriteFailed (msg : Msg) (p : PromiseId) (e : string) (s : t) : t :=
  settle p (RejectWriteError e)
    (with_applyChangesRequests (JsMap.delete (_reqid msg) (applyChangesRequests s)) s).

(** [#handleMessage], on the decoded message, at time [now]. *)
Definition handleMessage (now : Z) (msg : Msg) (s : t) : Exn + t :=
  match _tag msg with
  | Pong => inr (with_lastPong now s)
  | CreateDbOnPrimaryResponse =>
      match JsMap.get (_reqid msg) (createDbRequests s) with
      | None => inl (ResponseForUnknownRequest (_reqid msg))
      | Some createDbRequest => inr (createDbResolver createDbRequest msg s)
      end
  | Err =>
      match JsMap.get (_reqid msg) (createDbRequests s) with
      | Some createRequest => inr (createDbResolver createRequest msg s)
      | None =>
          match JsMap.get (_reqid msg) (applyChangesRequests s) with
          | Some applyRequest => inr (applyChangesResolver applyRequest msg s)
          | None => inl (ErrorForUnknownRequest (_reqid msg))
          end
      end
  | ApplyChangesOnPrimaryResponse =>
      match JsMap.get (_reqid msg) (applyChangesRequests s) with
      | None => inl (ResponseForUnknownRequest (_reqid msg))
      | Some applyChangesRequest => inr (applyChangesResolver applyChangesRequest msg s)
      end
  | other => inl (UnexpectedMessageType other)
  end.

(** The synthetic failure passed to every resolver by [#rejectPending]. *)
Definition connectionClosed : Msg :=
  {| _tag := Err; _reqid := -1; payload := "Primary connection closed" |}.

(** [for (const [_, reject] of table) reject(connectionClosed)].  A [Map]
    iterator walks the entries in insertion order and skips an entry that
    was deleted before its turn: [slots] are the entries at the start of
    the loop, [table] reads the live map and [call] is the body of the
    closures of that table. *)
Fixpoint rejectEach (table : t -> list (Z * PromiseId))
    (call : PromiseId -> Msg -> t -> t)
    (slots : list (Z * PromiseId)) (s : t) : t :=
  match slots with
  | [] => s
  | (k, reject) :: slots' =>
      if JsMap.has k (table s)
      then rejectEach table call slots' (call reject connectionClosed s)
      else rejectEach table call slots' s
  end.

Definition rejectPending (s : t) : t :=
  let s := rejectEach createDbRequests createDbResolver (createDbRequests s) s in
  let s := with_createDbRequests [] s in
  let s := rejectEach applyChangesRequests applyChangesResolver
             (applyChangesRequests s) s in
  with_applyChangesRequests [] s.

(** The socket's ["error"] listener. *)
Definition onError (e : string) (s : t) : t :=
  if negb (closed s) then onPrematurelyClosed (rejectPending s) else s.

(** The socket's ["close"] listener. *)
Definition onClose (s : t) : t :=
  if negb (closed s) then onPrematurelyClosed (rejectPending s) else s.

Definition ping : Msg := {| _tag := Ping; _reqid := 0; payload := "" |}.

(** [#sendPing], at time [now]. *)
Definition sendPing (now : Z) (s : t) : t :=
  if now - lastPong s >? 5000
  then clearInterval (socket_destroy s)
  else socket_write ping s.

(** The interval timer fires: [#sendPing] runs if the handle is live. *)
Definition timerFires (now : Z) (s : t) : t :=
  match pingPongHandle s with
  | Some _ => sendPing now s
  | None => s
  end.

Definition close (s : t) : t :=
  rejectPending (clearInterval (socket_destroy (with_closed true s))).

End PrimarySocket.

(** ** ConnectionBroker *)

Module ConnectionBroker.

(** A [SyncConnection] object, named by the Session Factory. *)
Definition SyncConnection := nat.

Inductive Exn :=
| AlreadyStarted (room : string)
    (** [new Error(`A sync connection for ${room} was already started ...`)] *)
| NullSyncConnection
    (** the [TypeError] of calling a method on a null [#syncConnection]:
        the [!] of [this.#syncConnection!] is erased at run time *)
| IllegalStartStreaming
    (** [new Error(`Illegal state -- servers do not process ...`)] *)
| Thrown (e : string)
    (** raised by [createSyncConnection] or by a session method *)
| DecodeFailed (reason : string).

(** Calls that leave the broker. *)
Inductive Effect :=
| CreateSyncConnection (room : string) (msg : Msg)
| Start (c : SyncConnection)
| ReceiveChanges (c : SyncConnection) (msg : Msg)
| ChangesRejected (c : SyncConnection) (msg : Msg)
| Close (c : SyncConnection)
| ConsoleError (e : Exn).

Definition isSessionCall (e : Effect) : bool :=
  match e with
  | Start _ | ReceiveChanges _ _ | ChangesRejected _ _ | Close _ => true
  | CreateSyncConnection _ _ | ConsoleError _ => false
  end.

Record t := {
  syncConnection : option SyncConnection;
  room : string;
  (** calls made so far, oldest first *)
  effects : list Effect;
  (** sessions the Session Factory has produced for this broker *)
  created : list SyncConnection;
  (** calls of [close()] *)
  closeCalls : nat
}.

(** The constructor ([ws] and [dbCache] are only passed on). *)
Definition new (room : string) : t :=
  {| syncConnection := None; room := room; effects := [];
     created := []; closeCalls := 0%nat |}.

Definition perform (e : Effect) (b : t) : t :=
  {| syncConnection := syncConnection b; room := room b;
     effects := effects b ++ [e];
     created := created b; closeCalls := closeCalls b |}.

(** How the collaborators answer while one message is handled: the promise
    of [createSyncConnection] (fulfilled with a session or rejected), and
    for each session method whether it raises ([receiveChanges]: whether
    its promise rejects).  [close()] of a session is taken to return. *)
Record Answers := {
  createSyncConnection_settles : SyncConnection + string;
  start_throws : option string;
  receiveChanges_rejects : option string;
  changesRejected_throws : option string
}.

(** The [await] points of [#handleMessage]. *)
Inductive Await := AwaitCreateSyncConnection | AwaitReceiveChanges.

(** An [async] body run up to its next suspension. *)
Inductive Run :=
| Returns (b : t)
| Throws (e : Exn) (b : t)
| Suspends (a : Await) (b : t).

Definition brokerOf (r : Run) : t :=
  match r with Returns b | Throws _ b | Suspends _ b => b end.

(** [#handleMessage(msg)] from its entry to its first [await]. *)
Definition handleMessage (env : Answers) (msg : Msg) (b : t) : Run :=
  match _tag msg with
  | AnnouncePresence =>
      match syncConnection b with
      | Some _ => Throws (AlreadyStarted (room b)) b
      | None => Suspends AwaitCreateSyncConnection
                  (perform (CreateSyncConnection (room b) msg) b)
      end
  | Changes =>
      match syncConnection b with
      | None => Throws NullSyncConnection b
      | Some syncConn =>
          Suspends AwaitReceiveChanges (perform (ReceiveChanges syncConn msg) b)
      end
  | RejectChanges =>
      match syncConnection b with
      | None => Throws NullSyncConnection b
      | Some syncConn =>
          let b := perform (ChangesRejected syncConn msg) b in
          match changesRejected_throws env with
          | Some e => Throws (Thrown e) b
          | None => Returns b
          end
      end
  | StartStreaming => Throws IllegalStartStreaming b
  | _ => Returns b
  end.

(** [#handleMessage] from an [await] to its end, once the awaited promise
    has settled. *)
Definition resume (env : Answers) (a : Await) (b : t) : Run :=
  match a with
  | AwaitCreateSyncConnection =>
      match createSyncConnection_settles env with
      | inr e => Throws (Thrown e) b
      | inl c =>
          let b := {| syncConnection := Some c; room := room b;
                      effects := effects b;
                      created := created b ++ [c];
                      closeCalls := closeCalls b |} in
          let b := perform (Start c) b in
          match start_throws env with
          | Some e => Throws (Thrown e) b
          | None => Returns b
          end
      end
  | AwaitReceiveChanges =>
      match receiveChanges_rejects env with
      | Some e => Throws (Thrown e) b
      | None => Returns b
      end
  end.

(** [close()]: [this.#syncConnection?.close()] *)
Definition close (b : t) : t :=
  let b := {| syncConnection := syncConnection b; room := room b;
              effects := effects b; created := created b;
              closeCalls := S (closeCalls b) |} in
  match syncConnection b with
  | Some c => perform (Close c) b
  | None => b
  end.

(** The [try { await this.#handleMessage(msg) } catch (e) { .. }] of the
    ["message"] listener, applied to a run of [#handleMessage]. *)
Definition tryCatch (r : Run) : Run :=
  match r with
  | Throws e b => Returns (close (perform (ConsoleError e) b))
  | _ => r
  end.

(** The ["message"] listener up to its first suspension.  [decode] is
    called before the [try]. *)
Definition onMessage (env : Answers) (data : Decoded) (b : t) : Run :=
  match data with
  | DecodeThrows reason => Throws (DecodeFailed reason) b
  | DecodesTo msg => tryCatch (handleMessage env msg b)
  end.

(** A suspended listener continues. *)
Definition onSettled (env : Answers) (a : Await) (b : t) : Run :=
  tryCatch (resume env a b).

(** The listener run from the arrival of the message to its end with no
    other event in between. *)
Definition onMessageToEnd (env : Answers) (data : Decoded) (b : t) : Run :=
  match onMessage env data b with
  | Suspends a b => onSettled env a b
  | r => r
  end.

(** What happens on a connection.  A suspended listener keeps no state
    of its own besides the broker, so the connection is the broker and the
    [await]s its listeners are suspended at; a settlement resumes one of
    them. *)
Inductive Event :=
| WsMessage (env : Answers) (data : Decoded)
| Settled (env : Answers) (a : Await)
| WsClose
| WsError.

Record Connection := { broker : t; suspended : list Await }.

Definition Await_eqb (a a' : Await) : bool :=
  match a, a' with
  | AwaitCreateSyncConnection, AwaitCreateSyncConnection
  | AwaitReceiveChanges, AwaitReceiveChanges => true
  | _, _ => false
  end.

Fixpoint removeFirst (a : Await) (l : list Await) : list Await :=
  match l with
  | [] => []
  | a' :: l' => if Await_eqb a a' then l' else a' :: removeFirst a l'
  end.

Definition step (c : Connection) (ev : Event) : Connection :=
  match ev with
  | WsMessage env data =>
      match onMessage env data (broker c) with
      | Suspends a b => {| broker := b; suspended := suspended c ++ [a] |}
      | r => {| broker := brokerOf r; suspended := suspended c |}
      end
  | Settled env a =>
      if existsb (Await_eqb a) (suspended c)
      then {| broker := brokerOf (onSettled env a (broker c));
              suspended := removeFirst a (suspended c) |}
      else c
  | WsClose | WsError =>
      {| broker := close (broker c); suspended := suspended c |}
  end.

Definition run (evs : list Event) (c : Connection) : Connection :=
  fold_left step evs c.

(** A connection as the server accepts it. *)
Definition accept (room : string) : Connection :=
  {| broker := new room; suspended := [] |}.

(** Messages handled one at a time, each listener finishing before the
    next event. *)
Inductive SerialEvent :=
| Handled (env : Answers) (data : Decoded)
| Closed.

Definition serialStep (b : t) (ev : SerialEvent) : t :=
  match ev with
  | Handled env data => brokerOf (onMessageToEnd env data b)
  | Closed => close b
  end.

Definition runSerial (evs : list SerialEvent) (b : t) : t :=
  fold_left serialStep evs b.

End ConnectionBroker.

(** * Statements *)

Import PrimarySocket.

(** The part of the link that neither the resolvers nor [#rejectPending]
    touch. *)
Definition sameLink (s s' : t) : Prop :=
  closed s' = closed s /\ lastPong s' = lastPong s /\
  pingPongHandle s' = pingPongHandle s /\
  socketDestroyed s' = socketDestroyed s /\
  socketWrites s' = socketWrites s /\
  prematurelyClosedCalls s' = prematurelyClosedCalls s /\
  promises s' = promises s.

(** A link as the owner gets it from the constructor, used in the examples. *)
Definition freshLink : t := new 9000 None "primary" 0.

(** The heartbeat timer firing at each of [times] in turn. *)
Definition fireAll (times : list Z) (s : t) : t :=
  fold_left (fun s now => timerFires now s) times s.

(** The owner was told once, between [s] and [s']. *)
Definition notifiedOnce (s s' : t) : Prop :=
  prematurelyClosedCalls s' = S (prematurelyClosedCalls s).

(** [sendCreateDb] / [sendApplyChanges] for their effect on the link. *)
Definition afterSendCreateDb (msg : Msg) (s : t) : t := snd (sendCreateDb msg s).
Definition afterSendApplyChanges (msg : Msg) (s : t) : t := snd (sendApplyChanges msg s).

Definition createDbOnPrimary (reqid : Z) : Msg :=
  {| _tag := CreateDbOnPrimary; _reqid := reqid; payload := "room" |}.
Definition applyChangesOnPrimary (reqid : Z) : Msg :=
  {| _tag := ApplyChangesOnPrimary; _reqid := reqid; payload := "changes" |}.
Definition createDbOnPrimaryResponse (reqid : Z) : Msg :=
  {| _tag := CreateDbOnPrimaryResponse; _reqid := reqid; payload := "" |}.
Definition applyChangesOnPrimaryResponse (reqid : Z) : Msg :=
  {| _tag := ApplyChangesOnPrimaryResponse; _reqid := reqid; payload := "" |}.
Definition err (reqid : Z) (reason : string) : Msg :=
  {| _tag := Err; _reqid := reqid; payload := reason |}.

(** Scenario C: one create-db request with id 7 in flight. *)
Definition linkAwaiting7 : t := afterSendCreateDb (createDbOnPrimary 7) freshLink.

(** [msg] was delivered to the closure of promise [p] found in [table]: the
    promise is rejected with [msg] itself and the entry under the id of
    [msg] is gone from [table]. *)
Definition rejectedWith (table : t -> list (Z * PromiseId))
    (msg : Msg) (p : PromiseId) (s s' : t) : Prop :=
  settlements s' = settlements s ++ [(p, Reject msg)] /\
  table s' = JsMap.delete (_reqid msg) (table s) /\
  JsMap.get (_reqid msg) (table s') = None.

(** The promises of the requests pending on [s], those of the create-db
    table first, each table in insertion order. *)
Definition pendingPromises (s : t) : list PromiseId :=
  map snd (createDbRequests s ++ applyChangesRequests s).

(** The teardown sweep of P5 between [s] and [s']: one rejection with the
    connection-closed [Err] for every promise pending on [s], nothing else
    settled, and both tables empty. *)
Definition sweeps (s s' : t) : Prop :=
  settlements s'
    = settlements s ++ map (fun p => (p, Reject connectionClosed)) (pendingPromises s) /\
  createDbRequests s' = [] /\ applyChangesRequests s' = [].

(** No request is pending under the id that [connectionClosed] carries. *)
Definition sentinelFree (s : t) : Prop :=
  ~ In (-1) (JsMap.keys (createDbRequests s)) /\
  ~ In (-1) (JsMap.keys (applyChangesRequests s)).

(** Two create-db requests in flight, the second one under the id -1. *)
Definition linkAwaiting5AndMinus1 : t :=
  afterSendCreateDb (createDbOnPrimary (-1))
    (afterSendCreateDb (createDbOnPrimary 5) freshLink).

(** Scenario D: requests 3 (create-db) and 4 (apply-changes) in flight. *)
Definition linkAwaiting3And4 : t :=
  afterSendApplyChanges (applyChangesOnPrimary 4)
    (afterSendCreateDb (createDbOnPrimary 3) freshLink).

(** A call of one of the two send methods. *)
Inductive Call :=
| CallSendCreateDb (msg : Msg)
| CallSendApplyChanges (msg : Msg).

Definition requestOf (c : Call) : Msg :=
  match c with CallSendCreateDb msg | CallSendApplyChanges msg => msg end.

Definition requestIds (calls : list Call) : list Z :=
  map (fun c => _reqid (requestOf c)) calls.

Definition issue (s : t) (c : Call) : t :=
  match c with
  | CallSendCreateDb msg => afterSendCreateDb msg s
  | CallSendApplyChanges msg => afterSendApplyChanges msg s
  end.

(** The calls made one after the other, before any reply arrives. *)
Definition issueAll (calls : list Call) (s : t) : t := fold_left issue calls s.

(** [reply] is what the primary may send back for call [c]: the response of
    the same family, or an [Err], with the request id of [c]. *)
Definition answers (reply : Msg) (c : Call) : Prop :=
  _reqid reply = _reqid (requestOf c) /\
  (_tag reply = Err \/
   _tag reply = match c with
                | CallSendCreateDb _ => CreateDbOnPrimaryResponse
                | CallSendApplyChanges _ => ApplyChangesOnPrimaryResponse
                end).

(** How a promise is settled by [reply]. *)
Definition outcome (reply : Msg) : Settlement :=
  if Tag_eqb (_tag reply) Err then Reject reply else Resolve reply.

(** The socket's ["data"] listener run on each message of [arrival] in turn;
    an exception ends the run. *)
Fixpoint deliver (now : Z) (arrival : list Msg) (s : t) : Exn + t :=
  match arrival with
  | [] => inr s
  | msg :: arrival' =>
      match handleMessage now msg s with
      | inl e => inl e
      | inr s' => deliver now arrival' s'
      end
  end.

(** All the calls of [resolve] / [reject] of promise [p], oldest first. *)
Definition settlementsOf (p : PromiseId) (s : t) : list Settlement :=
  map snd (filter (fun x => Nat.eqb (fst x) p) (settlements s)).

(** The entries that a batch of calls adds to each table when the first
    promise handed out is [base]. *)
Fixpoint createDbEntries (base : nat) (calls : list Call) : list (Z * PromiseId) :=
  match calls with
  | [] => []
  | CallSendCreateDb msg :: calls' =>
      (_reqid msg, base) :: createDbEntries (S base) calls'
  | CallSendApplyChanges _ :: calls' => createDbEntries (S base) calls'
  end.

Fixpoint applyChangesEntries (base : nat) (calls : list Call) : list (Z * PromiseId) :=
  match calls with
  | [] => []
  | CallSendApplyChanges msg :: calls' =>
      (_reqid msg, base) :: applyChangesEntries (S base) calls'
  | CallSendCreateDb _ :: calls' => applyChangesEntries (S base) calls'
  end.

(** No request id is pending in both tables. *)
Definition disjointTables (s : t) : Prop :=
  forall k, JsMap.get k (createDbRequests s) <> None ->
            JsMap.get k (applyChangesRequests s) = None.

(** [msg] is a reply that [#handleMessage] finds a pending request for. *)
Definition expected (s : t) (msg : Msg) : Prop :=
  match _tag msg with
  | CreateDbOnPrimaryResponse =>
      JsMap.get (_reqid msg) (createDbRequests s) <> None
  | ApplyChangesOnPrimaryResponse =>
      JsMap.get (_reqid msg) (applyChangesRequests s) <> None
  | Err =>
      JsMap.get (_reqid msg) (createDbRequests s) <> None \/
      JsMap.get (_reqid msg) (applyChangesRequests s) <> None
  | _ => False
  end.

(** The promise pending under request id [k], in the lookup order of the
    [Err] case. *)
Definition pendingPromise (s : t) (k : Z) : option PromiseId :=
  match JsMap.get k (createDbRequests s) with
  | Some p => Some p
  | None => JsMap.get k (applyChangesRequests s)
  end.

Definition promiseFor (s : t) (msg : Msg) : PromiseId :=
  match pendingPromise s (_reqid msg) with Some p => p | None => 0%nat end.

Definition deleteAll (ks : list Z) (m : list (Z * PromiseId)) : list (Z * PromiseId) :=
  fold_left (fun m k => JsMap.delete k m) ks m.

(** The promise that call [c] returns when made on [s]. *)
Definition promiseReturned (s : t) (c : Call) : PromiseId :=
  match c with
  | CallSendCreateDb msg => fst (sendCreateDb msg s)
  | CallSendApplyChanges msg => fst (sendApplyChanges msg s)
  end.

(** Scenario for P4: three calls in flight, answered in another order. *)
Definition threeCalls : list Call :=
  [CallSendCreateDb (createDbOnPrimary 7);
   CallSendApplyChanges (applyChangesOnPrimary 8);
   CallSendCreateDb (createDbOnPrimary 9)].

Definition threeReplies : list Msg :=
  [err 7 "disk full"; applyChangesOnPrimaryResponse 8; createDbOnPrimaryResponse 9].

Definition threeRepliesShuffled : list Msg :=
  [createDbOnPrimaryResponse 9; err 7 "disk full"; applyChangesOnPrimaryResponse 8].

(** ** Statements about the broker *)

Module CB := ConnectionBroker.

Definition announcePresence : Msg :=
  {| _tag := AnnouncePresence; _reqid := 0; payload := "site-a" |}.
Definition changes : Msg :=
  {| _tag := Changes; _reqid := 0; payload := "changeset" |}.
Definition rejectChanges : Msg :=
  {| _tag := RejectChanges; _reqid := 0; payload := "" |}.

(** Collaborators that do not fail, the factory producing session [c]. *)
Definition obliging (c : CB.SyncConnection) : CB.Answers :=
  {| CB.createSyncConnection_settles := inl c;
     CB.start_throws := None;
     CB.receiveChanges_rejects := None;
     CB.changesRejected_throws := None |}.

(** Scenario A up to the start of the session: a broker for room "r1" that
    has handled one AnnouncePresence and owns session 1. *)
Definition activeBroker : CB.t :=
  CB.brokerOf
    (CB.onMessageToEnd (obliging 1%nat) (DecodesTo announcePresence) (CB.new "r1")).

(** How a run ended, without the broker. *)
Inductive Verdict :=
| Returned
| Threw (e : CB.Exn)
| Suspended (a : CB.Await).

Definition verdict (r : CB.Run) : Verdict :=
  match r with
  | CB.Returns _ => Returned
  | CB.Throws e _ => Threw e
  | CB.Suspends a _ => Suspended a
  end.

Definition sessionCalls (b : CB.t) : list CB.Effect :=
  filter CB.isSessionCall (CB.effects b).

(** The absorbing closed state of 4.1 for one message: handled after
    [close()], [msg] is refused and no session method is called for it. *)
Definition refusedAfterClose (env : CB.Answers) (msg : Msg) (b : CB.t) : Prop :=
  (exists e, verdict (CB.handleMessage env msg (CB.close b)) = Threw e) /\
  sessionCalls (CB.brokerOf (CB.handleMessage env msg (CB.close b)))
    = sessionCalls (CB.close b).

(** Two AnnouncePresence frames, the second delivered while the listener of
    the first is suspended at [await createSyncConnection(..)]; the factory
    then produces session 1 for the first and session 2 for the second. *)
Definition twoAnnouncesOverlapping : list CB.Event :=
  [CB.WsMessage (obliging 1%nat) (DecodesTo announcePresence);
   CB.WsMessage (obliging 2%nat) (DecodesTo announcePresence);
   CB.Settled (obliging 1%nat) CB.AwaitCreateSyncConnection;
   CB.Settled (obliging 2%nat) CB.AwaitCreateSyncConnection].

(** At most one session was produced, and none unless one is owned. *)
Definition singleSession (b : CB.t) : Prop :=
  (CB.syncConnection b = None -> CB.created b = []) /\
  (List.length (CB.created b) <= 1)%nat.


(** ** Statements about whole runs of a link *)

(** What happens to a link, socket writes succeeding: the owner calls a
    method, the socket emits an event, or the heartbeat timer fires. *)
Inductive LinkEvent :=
| CallsSendCreateDb (msg : Msg)
| CallsSendApplyChanges (msg : Msg)
| SocketData (now : Z) (msg : Msg)
| SocketError (e : string)
| SocketClose
| TimerFires (now : Z)
| CallsClose.

(** [#handleMessage] throws before it changes anything, so a message that
    makes it throw leaves the link as it was. *)
Definition linkStep (s : t) (ev : LinkEvent) : t :=
  match ev with
  | CallsSendCreateDb msg => afterSendCreateDb msg s
  | CallsSendApplyChanges msg => afterSendApplyChanges msg s
  | SocketData now msg =>
      match handleMessage now msg s with
      | inr s' => s'
      | inl _ => s
      end
  | SocketError e => onError e s
  | SocketClose => onClose s
  | TimerFires now => timerFires now s
  | CallsClose => close s
  end.

Definition linkRun (evs : list LinkEvent) (s : t) : t := fold_left linkStep evs s.

(** The promises that have seen a call of [resolve] or [reject]. *)
Definition settledPromises (s : t) : list PromiseId := map fst (settlements s).

(** The requests handed to the socket by the send events of a run. *)
Definition requestsSent (evs : list LinkEvent) : list Msg :=
  flat_map (fun ev => match ev with
                      | CallsSendCreateDb msg | CallsSendApplyChanges msg => [msg]
                      | _ => []
                      end) evs.

(** The promises of a table that the loop of [#rejectPending] reaches: the
    oldest entry, and every later entry whose key is not -1. *)
Definition swept (table : list (Z * PromiseId)) : list PromiseId :=
  match table with
  | [] => []
  | (_, p) :: rest => p :: map snd (filter (fun e => negb (fst e =? -1)) rest)
  end.

(** A promise that was handed out, is in no table and has not been
    settled. *)
Definition orphaned (p : PromiseId) (s : t) : Prop :=
  (p < promises s)%nat /\ ~ In p (pendingPromises s) /\ ~ In p (settledPromises s).

(** The promises in the tables are distinct, handed out and unsettled; no
    promise was settled twice or before it was handed out. *)
Definition promisesInOrder (s : t) : Prop :=
  NoDup (pendingPromises s) /\ NoDup (settledPromises s) /\
  (forall p, In p (pendingPromises s) ->
     (p < promises s)%nat /\ ~ In p (settledPromises s)) /\
  (forall p, In p (settledPromises s) -> (p < promises s)%nat).


(** Where the link points. *)
Definition target (s : t) : string * Z * option string * string :=
  (currentPrimaryInstanceId s, port s, appName s, socketHost s).

(** Nothing is taken back between [s] and [s']: the target is the same, a
    set closed flag, a destroyed socket and a cancelled timer stay so, and
    the logs and counters have only grown. *)
Definition onlyForward (s s' : t) : Prop :=
  target s' = target s /\
  (closed s = true -> closed s' = true) /\
  (socketDestroyed s = true -> socketDestroyed s' = true) /\
  (pingPongHandle s = None -> pingPongHandle s' = None) /\
  (promises s <= promises s')%nat /\
  (prematurelyClosedCalls s <= prematurelyClosedCalls s')%nat /\
  (exists written, socketWrites s' = socketWrites s ++ written) /\
  (exists settled, settlements s' = settlements s ++ settled).

(** The link after a local [close()]. *)
Definition shutDown (s : t) : Prop :=
  closed s = true /\ pingPongHandle s = None /\ socketDestroyed s = true.


(** Socket, timer, closed flag, owner callback, promise count and target
    are the same in [s] and [s']. *)
Definition sameSocket (s s' : t) : Prop :=
  closed s' = closed s /\ pingPongHandle s' = pingPongHandle s /\
  socketDestroyed s' = socketDestroyed s /\ socketWrites s' = socketWrites s /\
  prematurelyClosedCalls s' = prematurelyClosedCalls s /\
  promises s' = promises s /\ target s' = target s.


(** ** Further statements about the broker *)

(** The session an effect is a method call on. *)
Definition sessionOf (e : CB.Effect) : option CB.SyncConnection :=
  match e with
  | CB.Start c | CB.ReceiveChanges c _ | CB.ChangesRejected c _ | CB.Close c => Some c
  | CB.CreateSyncConnection _ _ | CB.ConsoleError _ => None
  end.

Definition isFactoryCall (e : CB.Effect) : bool :=
  match e with CB.CreateSyncConnection _ _ => true | _ => false end.

(** Every session method was called on a session the factory produced,
    and the owned session is one of those. *)
Definition knownSessionsOnly (b : CB.t) : Prop :=
  (forall e c, In e (CB.effects b) -> sessionOf e = Some c -> In c (CB.created b)) /\
  (forall c, CB.syncConnection b = Some c -> In c (CB.created b)).

(** [close()] called [n] times in a row. *)
Definition closeTimes (n : nat) (b : CB.t) : CB.t := Nat.iter n CB.close b.

(** The session [c] is owned and no listener is waiting for the factory. *)
Definition settledOn (c : CB.SyncConnection) (conn : CB.Connection) : Prop :=
  CB.syncConnection (CB.broker conn) = Some c /\
  ~ In CB.AwaitCreateSyncConnection (CB.suspended conn).

Definition startStreaming : Msg :=
  {| _tag := StartStreaming; _reqid := 0; payload := "" |}.

(** What the broker did between [b] and [b']. *)
Definition performedSince (b b' : CB.t) : list CB.Effect :=
  skipn (List.length (CB.effects b)) (CB.effects b').

(** Something was closed between [b] and [b'].  The broker keeps the
    websocket only to register its listeners and to hand it to the
    [Transport]: it never calls a method on it, so the only thing it can
    close is a session. *)
Definition closesConnection (b b' : CB.t) : Prop :=
  exists c, In (CB.Close c) (performedSince b b').

(** P2 with its closure: handling [msg] fails, the connection is closed for
    it, and no method of a session is called other than to close it. *)
Definition failsClosingConnection (env : CB.Answers) (msg : Msg) (b : CB.t) : Prop :=
  (exists e, verdict (CB.handleMessage env msg b) = Threw e) /\
  closesConnection b (CB.brokerOf (CB.onMessage env (DecodesTo msg) b)) /\
  (forall e c, In e (performedSince b (CB.brokerOf (CB.onMessage env (DecodesTo msg) b))) ->
               sessionOf e = Some c -> e = CB.Close c).

(** * Properties *)

(** ** The request tables *)

Section MapFacts.
Context {V : Type}.
Implicit Types (m : list (Z * V)) (k : Z).

Lemma get_delete_same k m : JsMap.get k (JsMap.delete k m) = None.
Proof.
  induction m as [|[k' v] m IH]; simpl; auto.
  destruct (k' =? k) eqn:E; simpl; auto.
  rewrite Z.eqb_sym, E. exact IH.
Qed.

Lemma get_delete_other k k' m :
  k <> k' -> JsMap.get k (JsMap.delete k' m) = JsMap.get k m.
Proof.
  intros Hne. induction m as [|[k0 v] m IH]; simpl; auto.
  destruct (k0 =? k') eqn:E; simpl.
  - apply Z.eqb_eq in E. subst k0.
    destruct (k =? k') eqn:E'; [apply Z.eqb_eq in E'; contradiction | exact IH].
  - destruct (k =? k0); auto.
Qed.

Lemma get_none_notin k m : JsMap.get k m = None <-> ~ In k (JsMap.keys m).
Proof.
  induction m as [|[k' v] m IH]; simpl.
  - tauto.
  - destruct (k =? k') eqn:E.
    + apply Z.eqb_eq in E. subst. split; [discriminate | tauto].
    + apply Z.eqb_neq in E. rewrite IH. split; [intros H [H'|H']; auto | tauto].
Qed.

Lemma get_none_notin_inv k m : JsMap.get k m <> None -> In k (JsMap.keys m).
Proof.
  intros H. destruct (in_dec Z.eq_dec k (JsMap.keys m)) as [Hin|Hin]; auto.
  apply get_none_notin in Hin. contradiction.
Qed.

Lemma delete_absent k m : ~ In k (JsMap.keys m) -> JsMap.delete k m = m.
Proof.
  induction m as [|[k' v] m IH]; simpl; auto.
  intros H. destruct (k' =? k) eqn:E.
  - apply Z.eqb_eq in E. tauto.
  - simpl. f_equal. apply IH. tauto.
Qed.

Lemma has_present k v m : In (k, v) m -> JsMap.has k m = true.
Proof.
  intros H. unfold JsMap.has.
  destruct (JsMap.get k m) eqn:E; auto.
  apply get_none_notin in E. exfalso. apply E.
  unfold JsMap.keys. change k with (fst (k, v)). now apply in_map.
Qed.

Lemma set_absent k v m :
  ~ In k (JsMap.keys m) -> JsMap.set k v m = m ++ [(k, v)].
Proof.
  induction m as [|[k' v'] m IH]; simpl; auto.
  intros H. destruct (k =? k') eqn:E.
  - apply Z.eqb_eq in E. subst. tauto.
  - f_equal. apply IH. tauto.
Qed.

Lemma get_set_same k v m : JsMap.get k (JsMap.set k v m) = Some v.
Proof.
  induction m as [|[k' v'] m IH]; simpl.
  - now rewrite Z.eqb_refl.
  - destruct (k =? k') eqn:E; simpl; rewrite E; auto.
Qed.

Lemma get_set_other k k' v m :
  k <> k' -> JsMap.get k (JsMap.set k' v m) = JsMap.get k m.
Proof.
  intros Hne. induction m as [|[k0 v0] m IH]; simpl.
  - destruct (k =? k') eqn:E; auto. apply Z.eqb_eq in E. contradiction.
  - destruct (k' =? k0) eqn:E; simpl.
    + apply Z.eqb_eq in E. subst k0.
      destruct (k =? k') eqn:E'; auto. apply Z.eqb_eq in E'. contradiction.
    + destruct (k =? k0); auto.
Qed.

Lemma keys_nil_of_get m : (forall k, JsMap.get k m = None) -> m = [].
Proof.
  destruct m as [|[k v] m]; auto.
  intros H. specialize (H k). simpl in H. now rewrite Z.eqb_refl in H.
Qed.

End MapFacts.

(** ** What a resolver and the sweep leave alone *)

Lemma sameLink_refl s : sameLink s s.
Proof. repeat split. Qed.

Lemma sameLink_trans s1 s2 s3 : sameLink s1 s2 -> sameLink s2 s3 -> sameLink s1 s3.
Proof.
unfold sameLink. intros H1 H2.
destruct H1 as (?&?&?&?&?&?&?), H2 as (?&?&?&?&?&?&?).
repeat split; congruence.
Qed.

Lemma createDbResolver_sameLink p msg s : sameLink s (createDbResolver p msg s).
Proof.
  unfold createDbResolver; destruct (Tag_eqb (_tag msg) Err); repeat split.
Qed.

Lemma applyChangesResolver_sameLink p msg s :
  sameLink s (applyChangesResolver p msg s).
Proof.
  unfold applyChangesResolver; destruct (Tag_eqb (_tag msg) Err); repeat split.
Qed.

Lemma rejectEach_sameLink table call slots s :
  (forall p msg s, sameLink s (call p msg s)) ->
  sameLink s (rejectEach table call slots s).
Proof.
  intros Hcall. revert s. induction slots as [|[k r] slots IH]; intros s; simpl.
  - apply sameLink_refl.
  - destruct (JsMap.has k (table s)); auto.
    eapply sameLink_trans; [apply Hcall | apply IH].
Qed.

Lemma rejectPending_sameLink s : sameLink s (rejectPending s).
Proof.
  unfold rejectPending.
  set (s1 := rejectEach createDbRequests _ (createDbRequests s) s).
  set (s2 := with_createDbRequests [] s1).
  set (s3 := rejectEach applyChangesRequests _ (applyChangesRequests s2) s2).
  assert (H1 : sameLink s s1)
    by apply rejectEach_sameLink, createDbResolver_sameLink.
  assert (H2 : sameLink s1 s2) by (repeat split).
  assert (H3 : sameLink s2 s3)
    by apply rejectEach_sameLink, applyChangesResolver_sameLink.
  assert (H4 : sameLink s3 (with_applyChangesRequests [] s3)) by (repeat split).
  eauto using sameLink_trans.
Qed.

Lemma rejectEach_applyChanges_createDb slots s :
  createDbRequests (rejectEach applyChangesRequests applyChangesResolver slots s)
  = createDbRequests s.
Proof.
  revert s. induction slots as [|[k r] slots IH]; intros s; simpl; auto.
  destruct (JsMap.has k (applyChangesRequests s)); auto.
  rewrite IH. unfold applyChangesResolver.
  destruct (Tag_eqb (_tag connectionClosed) Err); reflexivity.
Qed.

Lemma rejectPending_tables s :
  createDbRequests (rejectPending s) = [] /\
  applyChangesRequests (rejectPending s) = [].
Proof.
  unfold rejectPending. simpl. split; [|reflexivity].
  now rewrite rejectEach_applyChanges_createDb.
Qed.

(** ** Heartbeat *)

Lemma timer_step (now : Z) (s : t) (period : Z) :
  pingPongHandle s = Some period ->
  (5000 < now - lastPong s ->
     socketDestroyed (timerFires now s) = true /\
     pingPongHandle (timerFires now s) = None /\
     socketWrites (timerFires now s) = socketWrites s) /\
  (now - lastPong s <= 5000 ->
     socketWrites (timerFires now s) = socketWrites s ++ [ping] /\
     pingPongHandle (timerFires now s) = Some period /\
     socketDestroyed (timerFires now s) = socketDestroyed s /\
     lastPong (timerFires now s) = lastPong s).
Proof.
  intros Hlive. unfold timerFires, sendPing. rewrite Hlive.
  split; intros Helapsed.
  - assert (E : (now - lastPong s >? 5000) = true) by (apply Z.gtb_lt; lia).
    rewrite E. simpl. repeat split.
  - assert (E : (now - lastPong s >? 5000) = false).
    { destruct (now - lastPong s >? 5000) eqn:E'; auto.
      apply Z.gtb_lt in E'. lia. }
    rewrite E. simpl. repeat split. exact Hlive.
Qed.

(** C9.  The constructor starts the timer with a period of 1000 ms.  When
    it fires with more than 5 * 1000 ms elapsed since the last Pong, the
    socket is destroyed, the timer is cancelled (so it never fires again) and
    nothing is written; otherwise one Ping is written and timer and socket
    stay as they were. *)
Theorem heartbeat_firing (now : Z) (s : t) (period : Z) :
  pingPongHandle s = Some period ->
  (forall port app id t0, pingPongHandle (new port app id t0) = Some 1000) /\
  (5 * 1000 < now - lastPong s ->
     socketDestroyed (timerFires now s) = true /\
     pingPongHandle (timerFires now s) = None /\
     socketWrites (timerFires now s) = socketWrites s /\
     forall later, timerFires later (timerFires now s) = timerFires now s) /\
  (now - lastPong s <= 5 * 1000 ->
     socketWrites (timerFires now s) = socketWrites s ++ [ping] /\
     pingPongHandle (timerFires now s) = Some period /\
     socketDestroyed (timerFires now s) = socketDestroyed s).
Proof.
  intros Hlive. unfold timerFires, sendPing. rewrite Hlive.
  split; [reflexivity|]. split; intros Helapsed.
  - assert (E : (now - lastPong s >? 5000) = true) by (apply Z.gtb_lt; lia).
    rewrite E. simpl. repeat split.
  - assert (E : (now - lastPong s >? 5000) = false).
    { destruct (now - lastPong s >? 5000) eqn:E'; auto.
      apply Z.gtb_lt in E'. lia. }
    rewrite E. simpl. repeat split. exact Hlive.
Qed.

Lemma heartbeat_firing_witness :
  socketDestroyed (timerFires 5001 freshLink) = true /\
  socketWrites (timerFires 5000 freshLink) = [ping].
Proof.
  split.
  - apply (heartbeat_firing 5001 freshLink 1000 eq_refl). simpl. lia.
  - apply (heartbeat_firing 5000 freshLink 1000 eq_refl). simpl. lia.
Defined.

(** ** Socket error and unsolicited close *)

(** Reads a field of [onPrematurelyClosed s] without unfolding [s]. *)
Ltac through_callback :=
  unfold notifiedOnce, onPrematurelyClosed;
  cbn [closed lastPong pingPongHandle socketDestroyed socketWrites
       prematurelyClosedCalls createDbRequests applyChangesRequests
       settlements promises].

Lemma onError_open e s :
  closed s = false -> onError e s = onPrematurelyClosed (rejectPending s).
Proof. unfold onError. now intros ->. Qed.

Lemma onClose_open s :
  closed s = false -> onClose s = onPrematurelyClosed (rejectPending s).
Proof. unfold onClose. now intros ->. Qed.

Lemma fireAll_within (period : Z) (times : list Z) (s : t) :
  pingPongHandle s = Some period ->
  Forall (fun now => now - lastPong s <= 5000) times ->
  pingPongHandle (fireAll times s) = Some period /\
  lastPong (fireAll times s) = lastPong s /\
  socketDestroyed (fireAll times s) = socketDestroyed s /\
  socketWrites (fireAll times s) = socketWrites s ++ repeat ping (List.length times).
Proof.
  revert s. induction times as [|now times IH]; intros s Hlive Hall.
  - simpl. rewrite app_nil_r. auto.
  - inversion Hall as [|? ? Hnow Hrest]; subst.
    destruct (timer_step now s period Hlive) as [_ Hping].
    destruct (Hping Hnow) as (Hw & Hh & Hd & Hl).
    change (fireAll (now :: times) s) with (fireAll times (timerFires now s)).
    destruct (IH (timerFires now s) Hh) as (H1 & H2 & H3 & H4).
    { rewrite Hl. exact Hrest. }
    rewrite H1, H2, H3, H4, Hw, Hd, Hl. repeat split; auto.
    simpl. now rewrite <- app_assoc.
Qed.

(** C2 does not hold as stated: an error followed by the close event of the
    same socket calls the owner twice. *)
Lemma error_then_close_notifies_twice :
  ~ notifiedOnce freshLink (onClose (onError "ECONNRESET" freshLink)).
Proof. unfold notifiedOnce. vm_compute. discriminate. Qed.

(** C2, amended.  Each error event and each close event that finds the
    closed flag unset calls [onPrematurelyClosed] exactly once and leaves the
    flag unset, so an error followed by the socket's close event calls it
    once each, twice in all; with the flag set (after a local [close()],
    which itself does not call it) neither listener does anything. *)
Theorem premature_close_notifies_per_event (e : string) (s : t) :
  (closed s = false ->
     notifiedOnce s (onError e s) /\ notifiedOnce s (onClose s) /\
     closed (onError e s) = false /\ closed (onClose s) = false /\
     prematurelyClosedCalls (onClose (onError e s))
       = S (S (prematurelyClosedCalls s))) /\
  (closed s = true -> onError e s = s /\ onClose s = s) /\
  (closed (close s) = true /\
   prematurelyClosedCalls (close s) = prematurelyClosedCalls s).
Proof.
  split; [|split].
  - intros Hopen.
    destruct (rejectPending_sameLink s) as (Hc & _ & _ & _ & _ & Hn & _).
    assert (Hopen' : closed (onError e s) = false).
    { rewrite onError_open by assumption. through_callback. congruence. }
    assert (Hn' : notifiedOnce s (onError e s)).
    { rewrite onError_open by assumption. through_callback. congruence. }
    split; [exact Hn'|]. split; [|split; [exact Hopen'|split]].
    + rewrite onClose_open by assumption. through_callback. congruence.
    + rewrite onClose_open by assumption. through_callback. congruence.
    + rewrite (onClose_open _ Hopen'). through_callback.
      destruct (rejectPending_sameLink (onError e s)) as (_ & _ & _ & _ & _ & Hn2 & _).
      rewrite Hn2. exact (f_equal S Hn').
  - intros Hclosed. unfold onError, onClose. rewrite Hclosed. auto.
  - unfold close.
    destruct (rejectPending_sameLink
                (clearInterval (socket_destroy (with_closed true s))))
      as (Hc & _ & _ & _ & _ & Hn & _).
    rewrite Hc, Hn. auto.
Qed.

Lemma premature_close_notifies_per_event_witness :
  prematurelyClosedCalls (onClose (onError "ECONNRESET" freshLink)) = 2%nat /\
  onClose (close freshLink) = close freshLink.
Proof.
  split.
  - apply (proj1 (premature_close_notifies_per_event "ECONNRESET" freshLink)).
    reflexivity.
  - apply (proj1 (proj2 (premature_close_notifies_per_event "" (close freshLink)))).
    reflexivity.
Defined.

(** ** Routing of inbound messages *)

Lemma createDbResolver_tables p msg s :
  createDbRequests (createDbResolver p msg s)
    = JsMap.delete (_reqid msg) (createDbRequests s) /\
  applyChangesRequests (createDbResolver p msg s) = applyChangesRequests s /\
  settlements (createDbResolver p msg s)
    = settlements s ++ [(p, if Tag_eqb (_tag msg) Err then Reject msg else Resolve msg)].
Proof.
  unfold createDbResolver. destruct (Tag_eqb (_tag msg) Err); repeat split.
Qed.

Lemma applyChangesResolver_tables p msg s :
  applyChangesRequests (applyChangesResolver p msg s)
    = JsMap.delete (_reqid msg) (applyChangesRequests s) /\
  createDbRequests (applyChangesResolver p msg s) = createDbRequests s /\
  settlements (applyChangesResolver p msg s)
    = settlements s ++ [(p, if Tag_eqb (_tag msg) Err then Reject msg else Resolve msg)].
Proof.
  unfold applyChangesResolver. destruct (Tag_eqb (_tag msg) Err); repeat split.
Qed.

(** C7.  An [Err] message is looked up in the create-db table first and in
    the apply-changes table second; the first entry found is rejected with
    that message and removed from its table, the other table being left
    alone; with the id in neither table [#handleMessage] throws.  A
    [CreateDbOnPrimaryResponse] or [ApplyChangesOnPrimaryResponse] whose id
    is not in its table throws as well. *)
Theorem err_routing_and_unknown_ids (now : Z) (msg : Msg) (s : t) :
  (_tag msg = Err ->
     match JsMap.get (_reqid msg) (createDbRequests s) with
     | Some p =>
         exists s', handleMessage now msg s = inr s' /\
           rejectedWith createDbRequests msg p s s' /\
           applyChangesRequests s' = applyChangesRequests s
     | None =>
         match JsMap.get (_reqid msg) (applyChangesRequests s) with
         | Some p =>
             exists s', handleMessage now msg s = inr s' /\
               rejectedWith applyChangesRequests msg p s s' /\
               createDbRequests s' = createDbRequests s
         | None =>
             handleMessage now msg s = inl (ErrorForUnknownRequest (_reqid msg))
         end
     end) /\
  (_tag msg = CreateDbOnPrimaryResponse ->
     JsMap.get (_reqid msg) (createDbRequests s) = None ->
     handleMessage now msg s = inl (ResponseForUnknownRequest (_reqid msg))) /\
  (_tag msg = ApplyChangesOnPrimaryResponse ->
     JsMap.get (_reqid msg) (applyChangesRequests s) = None ->
     handleMessage now msg s = inl (ResponseForUnknownRequest (_reqid msg))).
Proof.
  unfold handleMessage, rejectedWith. split; [|split].
  - intros Htag. rewrite Htag.
    destruct (JsMap.get (_reqid msg) (createDbRequests s)) as [p|] eqn:Ec.
    + eexists; split; [reflexivity|].
      destruct (createDbResolver_tables p msg s) as (H1 & H2 & H3).
      rewrite H1, H2, H3, Htag. simpl.
      repeat split. apply get_delete_same.
    + destruct (JsMap.get (_reqid msg) (applyChangesRequests s)) as [p|] eqn:Ea;
        [|reflexivity].
      eexists; split; [reflexivity|].
      destruct (applyChangesResolver_tables p msg s) as (H1 & H2 & H3).
      rewrite H1, H2, H3, Htag. simpl.
      repeat split. apply get_delete_same.
  - intros Htag Hnone. now rewrite Htag, Hnone.
  - intros Htag Hnone. now rewrite Htag, Hnone.
Qed.

Lemma err_routing_and_unknown_ids_witness :
  (exists s', handleMessage 0 (err 7 "disk full") linkAwaiting7 = inr s' /\
     rejectedWith createDbRequests (err 7 "disk full") 0%nat linkAwaiting7 s' /\
     applyChangesRequests s' = applyChangesRequests linkAwaiting7) /\
  handleMessage 0 (createDbOnPrimaryResponse 8) linkAwaiting7
    = inl (ResponseForUnknownRequest 8) /\
  handleMessage 0 (applyChangesOnPrimaryResponse 7) linkAwaiting7
    = inl (ResponseForUnknownRequest 7).
Proof.
  split; [|split].
  - exact (proj1 (err_routing_and_unknown_ids 0 (err 7 "disk full") linkAwaiting7)
             eq_refl).
  - exact (proj1 (proj2 (err_routing_and_unknown_ids 0
                           (createDbOnPrimaryResponse 8) linkAwaiting7))
             eq_refl eq_refl).
  - exact (proj2 (proj2 (err_routing_and_unknown_ids 0
                           (applyChangesOnPrimaryResponse 7) linkAwaiting7))
             eq_refl eq_refl).
Defined.

(** ** The teardown sweep *)

Lemma rejectEach_without_sentinel
    (table other : t -> list (Z * PromiseId)) (call : PromiseId -> Msg -> t -> t) :
  (forall p s, ~ In (-1) (JsMap.keys (table s)) ->
     table (call p connectionClosed s) = table s /\
     other (call p connectionClosed s) = other s /\
     settlements (call p connectionClosed s)
       = settlements s ++ [(p, Reject connectionClosed)]) ->
  forall slots s,
    ~ In (-1) (JsMap.keys (table s)) -> incl slots (table s) ->
    table (rejectEach table call slots s) = table s /\
    other (rejectEach table call slots s) = other s /\
    settlements (rejectEach table call slots s)
      = settlements s ++ map (fun e => (snd e, Reject connectionClosed)) slots.
Proof.
  intros Hcall. induction slots as [|[k p] slots IH]; intros s Hfree Hincl; simpl.
  - now rewrite app_nil_r.
  - rewrite (has_present k p) by (apply Hincl; now left).
    destruct (Hcall p s Hfree) as (H1 & H2 & H3).
    destruct (IH (call p connectionClosed s)) as (I1 & I2 & I3).
    + now rewrite H1.
    + rewrite H1. intros x Hx. apply Hincl. now right.
    + rewrite I1, I2, I3, H1, H2, H3. repeat split.
      now rewrite <- app_assoc.
Qed.

Lemma createDbResolver_without_sentinel p s :
  ~ In (-1) (JsMap.keys (createDbRequests s)) ->
  createDbRequests (createDbResolver p connectionClosed s) = createDbRequests s /\
  applyChangesRequests (createDbResolver p connectionClosed s)
    = applyChangesRequests s /\
  settlements (createDbResolver p connectionClosed s)
    = settlements s ++ [(p, Reject connectionClosed)].
Proof.
  intros Hfree. destruct (createDbResolver_tables p connectionClosed s) as (H1 & H2 & H3).
  rewrite H1, H2, H3. repeat split. now apply delete_absent.
Qed.

Lemma applyChangesResolver_without_sentinel p s :
  ~ In (-1) (JsMap.keys (applyChangesRequests s)) ->
  applyChangesRequests (applyChangesResolver p connectionClosed s)
    = applyChangesRequests s /\
  createDbRequests (applyChangesResolver p connectionClosed s) = createDbRequests s /\
  settlements (applyChangesResolver p connectionClosed s)
    = settlements s ++ [(p, Reject connectionClosed)].
Proof.
  intros Hfree.
  destruct (applyChangesResolver_tables p connectionClosed s) as (H1 & H2 & H3).
  rewrite H1, H2, H3. repeat split. now apply delete_absent.
Qed.

Lemma rejectPending_sweeps s : sentinelFree s -> sweeps s (rejectPending s).
Proof.
  intros [Hc Ha]. split; [|apply rejectPending_tables].
  unfold rejectPending, pendingPromises.
  set (s1 := rejectEach createDbRequests _ (createDbRequests s) s).
  destruct (rejectEach_without_sentinel createDbRequests applyChangesRequests
              createDbResolver createDbResolver_without_sentinel
              (createDbRequests s) s Hc (incl_refl _)) as (_ & A2 & A3).
  fold s1 in A2, A3.
  set (s2 := with_createDbRequests [] s1).
  assert (B2 : applyChangesRequests s2 = applyChangesRequests s) by exact A2.
  assert (B3 : settlements s2 = settlements s1) by reflexivity.
  destruct (rejectEach_without_sentinel applyChangesRequests createDbRequests
              applyChangesResolver applyChangesResolver_without_sentinel
              (applyChangesRequests s2) s2) as (_ & _ & C3).
  { now rewrite B2. }
  { apply incl_refl. }
  change (settlements (with_applyChangesRequests [] ?x)) with (settlements x).
  rewrite C3, B3, A3, B2, <- app_assoc, map_app, map_app.
  now rewrite !map_map.
Qed.

Lemma close_again s :
  createDbRequests s = [] -> applyChangesRequests s = [] ->
  closed s = true -> socketDestroyed s = true -> pingPongHandle s = None ->
  close s = s.
Proof.
  destruct s; simpl; intros; subst; reflexivity.
Qed.

Lemma close_twice s : close (close s) = close s.
Proof.
  unfold close at 2 3.
  set (s0 := clearInterval (socket_destroy (with_closed true s))).
  destruct (rejectPending_tables s0) as [T1 T2].
  destruct (rejectPending_sameLink s0) as (Hc & _ & Hh & Hd & _).
  apply close_again; auto.
Qed.

(** C3 does not hold as stated: with requests 5 and -1 pending in the
    create-db table, [close()] rejects the promise of request 5 and never
    settles the promise of request -1, whose entry the first resolver call
    deletes before the loop reaches it. *)
Lemma close_skips_request_minus1 :
  List.length (pendingPromises linkAwaiting5AndMinus1) = 2%nat /\
  settlements (close linkAwaiting5AndMinus1) = [(0%nat, Reject connectionClosed)] /\
  ~ sweeps linkAwaiting5AndMinus1 (close linkAwaiting5AndMinus1).
Proof.
  split; [reflexivity|]. split; [reflexivity|].
  intros [H _]. vm_compute in H. discriminate.
Qed.

(** C3, amended.  On a link where no request is pending under the id -1,
    [close()], and the error and close listeners while the closed flag is
    unset, reject every pending promise once with the [Err] of id -1 and
    text "Primary connection closed", settle nothing else and leave both
    tables empty; a second [close()] changes nothing at all. *)
Theorem teardown_sweep (e : string) (s : t) :
  sentinelFree s ->
  sweeps s (close s) /\
  (closed s = false -> sweeps s (onError e s) /\ sweeps s (onClose s)) /\
  close (close s) = close s /\
  connectionClosed = err (-1) "Primary connection closed".
Proof.
  intros Hfree. split; [|split; [|split]].
  - exact (rejectPending_sweeps
             (clearInterval (socket_destroy (with_closed true s))) Hfree).
  - intros Hopen. rewrite onError_open, onClose_open by assumption.
    split; exact (rejectPending_sweeps s Hfree).
  - apply close_twice.
  - reflexivity.
Qed.

Lemma teardown_sweep_witness :
  settlements (onError "ECONNRESET" linkAwaiting3And4)
    = [(0%nat, Reject connectionClosed); (1%nat, Reject connectionClosed)] /\
  createDbRequests (close linkAwaiting3And4) = [] /\
  close (close linkAwaiting3And4) = close linkAwaiting3And4.
Proof.
  assert (Hfree : sentinelFree linkAwaiting3And4).
  { split; simpl; intros [H|[]]; discriminate. }
  destruct (teardown_sweep "ECONNRESET" linkAwaiting3And4 Hfree)
    as ((_ & Ht & _) & Hev & Htwice & _).
  destruct (Hev eq_refl) as [(Hs & _) _].
  exact (conj Hs (conj Ht Htwice)).
Defined.

(** ** Request correlation *)

(** *** The tables after a batch of calls *)

Lemma createDbEntries_keys base calls :
  incl (JsMap.keys (createDbEntries base calls)) (requestIds calls).
Proof.
  revert base. induction calls as [|[m|m] calls IH]; intros base k Hk; simpl in *.
  - exact Hk.
  - destruct Hk as [<-|Hk]; [now left | right; eapply IH; eauto].
  - right. eapply IH; eauto.
Qed.

Lemma applyChangesEntries_keys base calls :
  incl (JsMap.keys (applyChangesEntries base calls)) (requestIds calls).
Proof.
  revert base. induction calls as [|[m|m] calls IH]; intros base k Hk; simpl in *.
  - exact Hk.
  - right. eapply IH; eauto.
  - destruct Hk as [<-|Hk]; [now left | right; eapply IH; eauto].
Qed.

Lemma issueAll_tables calls s :
  NoDup (requestIds calls) ->
  (forall k, In k (requestIds calls) ->
     ~ In k (JsMap.keys (createDbRequests s)) /\
     ~ In k (JsMap.keys (applyChangesRequests s))) ->
  createDbRequests (issueAll calls s)
    = createDbRequests s ++ createDbEntries (promises s) calls /\
  applyChangesRequests (issueAll calls s)
    = applyChangesRequests s ++ applyChangesEntries (promises s) calls /\
  settlements (issueAll calls s) = settlements s.
Proof.
  revert s. induction calls as [|c calls IH]; intros s Hnd Hfresh.
  - simpl. now rewrite !app_nil_r.
  - inversion Hnd as [|? ? Hc Hnd']; subst.
    change (issueAll (c :: calls) s) with (issueAll calls (issue s c)).
    destruct (Hfresh (_reqid (requestOf c)) (or_introl eq_refl)) as [F1 F2].
    assert (Hs : createDbRequests (issue s c)
                 = createDbRequests s ++ createDbEntries (promises s) [c] /\
                 applyChangesRequests (issue s c)
                 = applyChangesRequests s ++ applyChangesEntries (promises s) [c] /\
                 settlements (issue s c) = settlements s /\
                 promises (issue s c) = S (promises s)).
    { destruct c as [m|m]; simpl in *; rewrite ?app_nil_r;
        repeat split; now apply set_absent. }
    destruct Hs as (S1 & S2 & S3 & S4).
    destruct (IH (issue s c) Hnd') as (I1 & I2 & I3).
    { intros k Hk. rewrite S1, S2. unfold JsMap.keys. rewrite !map_app.
      destruct (Hfresh k (or_intror Hk)) as [G1 G2].
      assert (k <> _reqid (requestOf c)) by (intros ->; contradiction).
      split; intros Hin; apply in_app_or in Hin; destruct Hin as [Hin|Hin]; auto;
        destruct c as [m|m]; simpl in *; intuition. }
    rewrite I1, I2, I3, S1, S2, S3, S4, <- !app_assoc.
    destruct c; simpl; auto.
Qed.

Lemma createDbEntries_get base calls i msg :
  NoDup (requestIds calls) ->
  nth_error calls i = Some (CallSendCreateDb msg) ->
  JsMap.get (_reqid msg) (createDbEntries base calls) = Some (base + i)%nat /\
  JsMap.get (_reqid msg) (applyChangesEntries base calls) = None.
Proof.
  revert base i. induction calls as [|c calls IH]; intros base i Hnd Hi.
  - destruct i; discriminate.
  - inversion Hnd as [|? ? Hc Hnd']; subst. destruct i as [|i]; simpl in Hi.
    + injection Hi as ->. simpl. rewrite Z.eqb_refl, Nat.add_0_r. split; auto.
      apply get_none_notin. intros Hin. apply Hc.
      eapply applyChangesEntries_keys; eauto.
    + destruct (IH (S base) i Hnd' Hi) as [I1 I2].
      assert (Hne : (_reqid msg =? _reqid (requestOf c)) = false).
      { apply Z.eqb_neq. intros E. apply Hc. rewrite <- E.
        apply nth_error_In in Hi.
        exact (in_map (fun c => _reqid (requestOf c)) calls _ Hi). }
      rewrite <- Nat.add_succ_comm.
      destruct c as [m|m]; simpl in *; rewrite ?Hne; auto.
Qed.

Lemma applyChangesEntries_get base calls i msg :
  NoDup (requestIds calls) ->
  nth_error calls i = Some (CallSendApplyChanges msg) ->
  JsMap.get (_reqid msg) (applyChangesEntries base calls) = Some (base + i)%nat /\
  JsMap.get (_reqid msg) (createDbEntries base calls) = None.
Proof.
  revert base i. induction calls as [|c calls IH]; intros base i Hnd Hi.
  - destruct i; discriminate.
  - inversion Hnd as [|? ? Hc Hnd']; subst. destruct i as [|i]; simpl in Hi.
    + injection Hi as ->. simpl. rewrite Z.eqb_refl, Nat.add_0_r. split; auto.
      apply get_none_notin. intros Hin. apply Hc.
      eapply createDbEntries_keys; eauto.
    + destruct (IH (S base) i Hnd' Hi) as [I1 I2].
      assert (Hne : (_reqid msg =? _reqid (requestOf c)) = false).
      { apply Z.eqb_neq. intros E. apply Hc. rewrite <- E.
        apply nth_error_In in Hi.
        exact (in_map (fun c => _reqid (requestOf c)) calls _ Hi). }
      rewrite <- Nat.add_succ_comm.
      destruct c as [m|m]; simpl in *; rewrite ?Hne; auto.
Qed.

(** *** Delivery of replies *)

Lemma delete_absent_get (k : Z) (m : list (Z * PromiseId)) :
  JsMap.get k m = None -> JsMap.delete k m = m.
Proof. intros H. now apply delete_absent, get_none_notin. Qed.

Lemma handleMessage_expected now msg s :
  disjointTables s -> expected s msg ->
  exists p s',
    pendingPromise s (_reqid msg) = Some p /\
    handleMessage now msg s = inr s' /\
    createDbRequests s' = JsMap.delete (_reqid msg) (createDbRequests s) /\
    applyChangesRequests s' = JsMap.delete (_reqid msg) (applyChangesRequests s) /\
    settlements s' = settlements s ++ [(p, outcome msg)].
Proof.
  intros Hdisj Hexp. unfold expected in Hexp.
  unfold handleMessage, pendingPromise, outcome.
  destruct (JsMap.get (_reqid msg) (createDbRequests s)) as [p|] eqn:Ec.
  - assert (Ea : JsMap.get (_reqid msg) (applyChangesRequests s) = None)
      by (apply Hdisj; congruence).
    destruct (_tag msg) eqn:Etag; try contradiction; try congruence.
    all: exists p, (createDbResolver p msg s); split; auto; split; auto.
    all: destruct (createDbResolver_tables p msg s) as (H1 & H2 & H3).
    all: rewrite H1, H2, H3, Etag, (delete_absent_get _ _ Ea); auto.
  - destruct (JsMap.get (_reqid msg) (applyChangesRequests s)) as [p|] eqn:Ea.
    + destruct (_tag msg) eqn:Etag; try contradiction; try congruence.
      all: exists p, (applyChangesResolver p msg s); split; auto; split; auto.
      all: destruct (applyChangesResolver_tables p msg s) as (H1 & H2 & H3).
      all: rewrite H1, H2, H3, Etag, (delete_absent_get _ _ Ec); auto.
    + destruct (_tag msg); try contradiction; try congruence.
      destruct Hexp; congruence.
Qed.

Lemma deliver_expected now arrival s :
  disjointTables s ->
  NoDup (map _reqid arrival) ->
  Forall (expected s) arrival ->
  exists s',
    deliver now arrival s = inr s' /\
    createDbRequests s' = deleteAll (map _reqid arrival) (createDbRequests s) /\
    applyChangesRequests s'
      = deleteAll (map _reqid arrival) (applyChangesRequests s) /\
    settlements s'
      = settlements s ++ map (fun msg => (promiseFor s msg, outcome msg)) arrival.
Proof.
  revert s. induction arrival as [|msg arrival IH]; intros s Hdisj Hnd Hexp.
  - exists s. simpl. now rewrite app_nil_r.
  - inversion Hnd as [|? ? Hfresh Hnd']; subst.
    inversion Hexp as [|? ? Hmsg Hrest]; subst.
    destruct (handleMessage_expected now msg s Hdisj Hmsg)
      as (p & s1 & Hp & Hh & Hc & Ha & Hs).
    assert (Hother : forall m, In m arrival ->
              JsMap.get (_reqid m) (createDbRequests s1)
                = JsMap.get (_reqid m) (createDbRequests s) /\
              JsMap.get (_reqid m) (applyChangesRequests s1)
                = JsMap.get (_reqid m) (applyChangesRequests s)).
    { intros m Hm. rewrite Hc, Ha.
      assert (_reqid m <> _reqid msg).
      { intros E. apply Hfresh. rewrite <- E. now apply in_map. }
      split; now apply get_delete_other. }
    destruct (IH s1) as (s' & Hd & Hc' & Ha' & Hs'); auto.
    + intros k Hk. rewrite Hc in Hk. rewrite Ha.
      destruct (Z.eq_dec k (_reqid msg)) as [->|Hne].
      * now rewrite get_delete_same in Hk.
      * rewrite get_delete_other in * by assumption. auto.
    + apply Forall_forall. intros m Hm.
      rewrite Forall_forall in Hrest. specialize (Hrest m Hm).
      destruct (Hother m Hm) as [O1 O2].
      unfold expected in *. rewrite O1, O2. exact Hrest.
    + exists s'. simpl. rewrite Hh. split; auto.
      rewrite Hc', Ha', Hs', Hc, Ha, Hs, <- app_assoc. repeat split.
      simpl. unfold promiseFor at 2. rewrite Hp. do 2 f_equal.
      apply map_ext_in. intros m Hm. destruct (Hother m Hm) as [O1 O2].
      unfold promiseFor, pendingPromise. now rewrite O1, O2.
Qed.

Lemma get_deleteAll_in (ks : list Z) (m : list (Z * PromiseId)) k :
  In k ks -> JsMap.get k (deleteAll ks m) = None.
Proof.
  revert m. induction ks as [|k0 ks IH]; intros m Hin; [contradiction|].
  simpl. destruct (in_dec Z.eq_dec k ks) as [Hk|Hk]; [now apply IH|].
  destruct Hin as [->|Hin]; [|contradiction].
  clear IH. assert (H : JsMap.get k (JsMap.delete k m) = None)
    by apply get_delete_same.
  revert H. generalize (JsMap.delete k m). clear m.
  induction ks as [|k1 ks IH]; intros m H; simpl; auto.
  apply IH; [intros Hin; apply Hk; now right|].
  destruct (Z.eq_dec k k1) as [->|Hne]; [apply get_delete_same|].
  now rewrite get_delete_other.
Qed.

Lemma get_deleteAll_none (ks : list Z) (m : list (Z * PromiseId)) k :
  JsMap.get k m = None -> JsMap.get k (deleteAll ks m) = None.
Proof.
  revert m. induction ks as [|k0 ks IH]; intros m H; simpl; auto.
  apply IH. destruct (Z.eq_dec k k0) as [->|Hne]; [apply get_delete_same|].
  now rewrite get_delete_other.
Qed.

Lemma deleteAll_all_keys (ks : list Z) (m : list (Z * PromiseId)) :
  incl (JsMap.keys m) ks -> deleteAll ks m = [].
Proof.
  intros Hincl. apply keys_nil_of_get. intros k.
  destruct (JsMap.get k m) eqn:E.
  - apply get_deleteAll_in, Hincl, get_none_notin_inv. congruence.
  - now apply get_deleteAll_none.
Qed.

(** *** Each promise gets its own reply *)

Lemma filter_Permutation {A : Type} (f : A -> bool) (l l' : list A) :
  Permutation l l' -> Permutation (filter f l) (filter f l').
Proof.
  induction 1 as [|x l l' _ IH|x y l|l l' l'' _ IH1 _ IH2]; simpl.
  - constructor.
  - destruct (f x); auto.
  - destruct (f x), (f y); auto. apply perm_swap.
  - eapply perm_trans; eauto.
Qed.

Lemma filter_no_match {A : Type} (l : list (nat * A)) (p : nat) :
  (forall y, In y l -> fst y <> p) ->
  filter (fun y => Nat.eqb (fst y) p) l = [].
Proof.
  induction l as [|y l IH]; intros H; simpl; auto.
  destruct (Nat.eqb (fst y) p) eqn:E.
  - apply Nat.eqb_eq in E. exfalso. apply (H y); simpl; auto.
  - apply IH. intros z Hz. apply H. now right.
Qed.

Lemma filter_numbered {A : Type} (l : list (nat * A)) (base i : nat) (x : nat * A) :
  (forall j y, nth_error l j = Some y -> fst y = (base + j)%nat) ->
  nth_error l i = Some x ->
  filter (fun y => Nat.eqb (fst y) (base + i)) l = [x].
Proof.
  revert base i. induction l as [|y l IH]; intros base i Hnum Hi.
  - destruct i; discriminate.
  - assert (Hy : fst y = base) by (rewrite (Hnum 0%nat y eq_refl); lia).
    assert (Htl : forall j z, nth_error l j = Some z -> fst z = (S base + j)%nat).
    { intros j z Hz. rewrite (Hnum (S j) z Hz). lia. }
    simpl. destruct i as [|i]; simpl in Hi.
    + injection Hi as ->. rewrite Hy, Nat.add_0_r, Nat.eqb_refl. f_equal.
      apply filter_no_match. intros z Hz.
      destruct (In_nth_error _ _ Hz) as [j Hj]. rewrite (Htl j z Hj). lia.
    + replace (Nat.eqb (fst y) (base + S i)) with false
        by (symmetry; apply Nat.eqb_neq; lia).
      rewrite <- Nat.add_succ_comm. now apply IH.
Qed.

Lemma Forall2_nth_error {A B : Type} (R : A -> B -> Prop) l l' i x :
  Forall2 R l l' -> nth_error l i = Some x ->
  exists y, nth_error l' i = Some y /\ R x y.
Proof.
  intros H. revert i. induction H as [|a b l l' Hab _ IH]; intros i Hi.
  - destruct i; discriminate.
  - destruct i as [|i]; simpl in *.
    + injection Hi as ->. eauto.
    + now apply IH.
Qed.

Lemma answers_ids replies calls :
  Forall2 answers replies calls -> map _reqid replies = requestIds calls.
Proof.
  induction 1 as [|r c replies calls [Hid _] _ IH]; simpl; auto.
  now rewrite Hid, IH.
Qed.

Lemma createDbEntries_key_inv base calls k :
  In k (JsMap.keys (createDbEntries base calls)) ->
  exists i msg, nth_error calls i = Some (CallSendCreateDb msg) /\ _reqid msg = k.
Proof.
  revert base. induction calls as [|[m|m] calls IH]; intros base Hk; simpl in Hk.
  - contradiction.
  - destruct Hk as [<-|Hk].
    + now exists 0%nat, m.
    + destruct (IH _ Hk) as (i & msg & Hi & Hm). now exists (S i), msg.
  - destruct (IH _ Hk) as (i & msg & Hi & Hm). now exists (S i), msg.
Qed.

Section Correlation.
Variables (port : Z) (app : option string) (id : string) (now : Z).
Variables (calls : list Call) (replies : list Msg).
Hypothesis distinct : NoDup (requestIds calls).
Hypothesis replied : Forall2 answers replies calls.

Let s0 : t := issueAll calls (new port app id now).

Lemma inflight_tables :
  createDbRequests s0 = createDbEntries 0 calls /\
  applyChangesRequests s0 = applyChangesEntries 0 calls /\
  settlements s0 = [].
Proof.
  destruct (issueAll_tables calls (new port app id now) distinct) as (H1 & H2 & H3).
  - intros k _. simpl. tauto.
  - exact (conj H1 (conj H2 H3)).
Qed.

Lemma inflight_disjoint : disjointTables s0.
Proof.
  destruct inflight_tables as (H1 & H2 & _).
  intros k Hk. rewrite H1 in Hk. rewrite H2.
  apply get_none_notin_inv, createDbEntries_key_inv in Hk.
  destruct Hk as (i & msg & Hi & <-).
  now destruct (createDbEntries_get 0 calls i msg distinct Hi).
Qed.

Lemma inflight_reply i reply :
  nth_error replies i = Some reply ->
  expected s0 reply /\ promiseFor s0 reply = i.
Proof.
  intros Hi. destruct inflight_tables as (H1 & H2 & _).
  destruct (Forall2_nth_error _ _ _ _ _ replied Hi) as (c & Hc & Hid & Htag).
  unfold expected, promiseFor, pendingPromise. rewrite H1, H2, Hid.
  destruct c as [msg|msg]; simpl in *.
  - destruct (createDbEntries_get 0 calls i msg distinct Hc) as [G1 G2].
    rewrite G1. split; auto.
    destruct Htag as [-> | ->]; [left|]; congruence.
  - destruct (applyChangesEntries_get 0 calls i msg distinct Hc) as [G1 G2].
    rewrite G1, G2. split; auto.
    destruct Htag as [-> | ->]; [right|]; congruence.
Qed.

Lemma inflight_expected arrival :
  incl arrival replies -> Forall (expected s0) arrival.
Proof.
  intros Hincl. apply Forall_forall. intros m Hm.
  destruct (In_nth_error _ _ (Hincl m Hm)) as [i Hi].
  now destruct (inflight_reply i m Hi).
Qed.

Lemma inflight_settled_by arrival i reply :
  Permutation arrival replies ->
  nth_error replies i = Some reply ->
  map snd (filter (fun x => Nat.eqb (fst x) i)
             (map (fun msg => (promiseFor s0 msg, outcome msg)) arrival))
    = [outcome reply].
Proof.
  intros Hperm Hi.
  set (g := fun msg => (promiseFor s0 msg, outcome msg)).
  assert (Hrep : filter (fun x => Nat.eqb (fst x) i) (map g replies) = [g reply]).
  { apply (filter_numbered (map g replies) 0 i (g reply)).
    - intros j y Hj. rewrite nth_error_map in Hj.
      destruct (nth_error replies j) as [r|] eqn:Er; [|discriminate].
      injection Hj as <-. simpl. now destruct (inflight_reply j r Er).
    - rewrite nth_error_map, Hi. reflexivity. }
  assert (P : Permutation [g reply]
                (filter (fun x => Nat.eqb (fst x) i) (map g arrival))).
  { rewrite <- Hrep. apply filter_Permutation, Permutation_map.
    now apply Permutation_sym. }
  apply Permutation_length_1_inv in P. now rewrite P.
Qed.

End Correlation.

(** C1.  Calls with pairwise distinct request ids are made on a new link,
    the i-th call returning promise i, and then every call is answered
    once, by the response of its family or by an [Err] carrying its id, the
    replies arriving in any order.  Then no reply makes [#handleMessage]
    throw; promise i sees exactly one call of [resolve] / [reject], made
    with the reply to call i ([resolve] for a response, [reject] for an
    [Err]); once a reply has been handled no entry is left under its id; and
    at the end both tables are empty. *)
Theorem request_correlation
    (port : Z) (app : option string) (id : string) (now : Z)
    (calls : list Call) (replies arrival : list Msg) :
  NoDup (requestIds calls) ->
  Forall2 answers replies calls ->
  Permutation arrival replies ->
  let s0 := issueAll calls (new port app id now) in
  (forall i c, nth_error calls i = Some c ->
     promiseReturned (issueAll (firstn i calls) (new port app id now)) c = i) /\
  (forall i reply, nth_error replies i = Some reply ->
     pendingPromise s0 (_reqid reply) = Some i) /\
  (forall before after, arrival = before ++ after ->
     exists s1, deliver now before s0 = inr s1 /\
       forall reply, In reply before -> pendingPromise s1 (_reqid reply) = None) /\
  exists s',
    deliver now arrival s0 = inr s' /\
    createDbRequests s' = [] /\ applyChangesRequests s' = [] /\
    forall i reply, nth_error replies i = Some reply ->
      settlementsOf i s' = [outcome reply].
Proof.
  intros Hnd Hans Hperm s0.
  assert (Hids : map _reqid replies = requestIds calls) by now apply answers_ids.
  assert (Hnd' : NoDup (map _reqid arrival)).
  { apply Permutation_NoDup with (l := map _reqid replies).
    - now apply Permutation_map, Permutation_sym.
    - now rewrite Hids. }
  destruct (inflight_tables port app id now calls Hnd) as (T1 & T2 & T3).
  fold s0 in T1, T2, T3.
  split; [|split; [|split]].
  - intros i c Hi.
    assert (Hp : forall l s, promises (issueAll l s) = (promises s + List.length l)%nat).
    { induction l as [|x l IH]; intros s; simpl; [lia|].
      rewrite IH. destruct x; simpl; lia. }
    assert (Hlen : (i < List.length calls)%nat)
      by (apply nth_error_Some; congruence).
    transitivity (promises (issueAll (firstn i calls) (new port app id now))).
    + now destruct c.
    + rewrite Hp, length_firstn. simpl. lia.
  - intros i reply Hi.
    destruct (inflight_reply port app id now calls replies Hnd Hans i reply Hi)
      as [Hexp Hp].
    fold s0 in Hexp, Hp. unfold promiseFor in Hp.
    destruct (pendingPromise s0 (_reqid reply)) as [p|] eqn:E;
      [now rewrite <- Hp|].
    exfalso. unfold pendingPromise in E. unfold expected in Hexp.
    destruct (JsMap.get (_reqid reply) (createDbRequests s0)); [discriminate|].
    destruct (_tag reply); try contradiction; try congruence.
    destruct Hexp; congruence.
  - intros before after Harr. subst arrival.
    rewrite map_app in Hnd'.
    destruct (deliver_expected now before s0) as (s1 & Hd & Hc & Ha & _).
    + exact (inflight_disjoint port app id now calls Hnd).
    + eapply NoDup_app_remove_r; eauto.
    + apply (inflight_expected port app id now calls replies Hnd Hans).
      intros m Hm. eapply Permutation_in; [exact Hperm|].
      apply in_or_app. now left.
    + exists s1. split; auto. intros reply Hin.
      unfold pendingPromise. rewrite Hc, Ha.
      rewrite !get_deleteAll_in; auto; now apply in_map.
  - destruct (deliver_expected now arrival s0) as (s' & Hd & Hc & Ha & Hs).
    + exact (inflight_disjoint port app id now calls Hnd).
    + exact Hnd'.
    + apply (inflight_expected port app id now calls replies Hnd Hans).
      intros m Hm. eapply Permutation_in; eauto.
    + assert (Hall : incl (requestIds calls) (map _reqid arrival)).
      { intros k Hk. rewrite <- Hids in Hk.
        eapply Permutation_in; [|exact Hk].
        now apply Permutation_map, Permutation_sym. }
      exists s'. split; auto. split; [|split].
      * rewrite Hc, T1. apply deleteAll_all_keys.
        intros k Hk. apply Hall. eapply createDbEntries_keys; eauto.
      * rewrite Ha, T2. apply deleteAll_all_keys.
        intros k Hk. apply Hall. eapply applyChangesEntries_keys; eauto.
      * intros i reply Hi. unfold settlementsOf. rewrite Hs, T3. simpl.
        exact (inflight_settled_by port app id now calls replies Hnd Hans
                 arrival i reply Hperm Hi).
Qed.

Lemma request_correlation_witness :
  exists s',
    deliver 0 threeRepliesShuffled (issueAll threeCalls freshLink) = inr s' /\
    createDbRequests s' = [] /\ applyChangesRequests s' = [] /\
    settlementsOf 0%nat s' = [Reject (err 7 "disk full")] /\
    settlementsOf 1%nat s' = [Resolve (applyChangesOnPrimaryResponse 8)] /\
    settlementsOf 2%nat s' = [Resolve (createDbOnPrimaryResponse 9)].
Proof.
  assert (Hnd : NoDup (requestIds threeCalls)).
  { repeat (constructor; [simpl; intuition discriminate|]). constructor. }
  assert (Hans : Forall2 answers threeReplies threeCalls).
  { constructor; [split; [reflexivity | left; reflexivity]|].
    constructor; [split; [reflexivity | right; reflexivity]|].
    constructor; [split; [reflexivity | right; reflexivity]|]. constructor. }
  assert (Hperm : Permutation threeRepliesShuffled threeReplies).
  { unfold threeRepliesShuffled, threeReplies.
    eapply perm_trans; [apply perm_swap|]. apply perm_skip, perm_swap. }
  destruct (request_correlation 9000 None "primary" 0 threeCalls threeReplies
              threeRepliesShuffled Hnd Hans Hperm)
    as (_ & _ & _ & s' & Hd & Hc & Ha & Hs).
  exists s'. split; [exact Hd|]. split; [exact Hc|]. split; [exact Ha|].
  split; [|split].
  - exact (Hs 0%nat _ eq_refl).
  - exact (Hs 1%nat _ eq_refl).
  - exact (Hs 2%nat _ eq_refl).
Defined.

(** ** The broker *)

Lemma perform_fields e b :
  CB.syncConnection (CB.perform e b) = CB.syncConnection b /\
  CB.room (CB.perform e b) = CB.room b /\
  CB.created (CB.perform e b) = CB.created b /\
  CB.closeCalls (CB.perform e b) = CB.closeCalls b /\
  CB.effects (CB.perform e b) = CB.effects b ++ [e].
Proof. repeat split. Qed.

Lemma close_fields b :
  CB.syncConnection (CB.close b) = CB.syncConnection b /\
  CB.room (CB.close b) = CB.room b /\
  CB.created (CB.close b) = CB.created b /\
  CB.closeCalls (CB.close b) = S (CB.closeCalls b) /\
  CB.effects (CB.close b)
    = CB.effects b ++ match CB.syncConnection b with
                      | Some c => [CB.Close c]
                      | None => []
                      end.
Proof.
  unfold CB.close. simpl. destruct (CB.syncConnection b); simpl;
    rewrite ?app_nil_r; repeat split.
Qed.

(** C8 does not hold as stated: a Changes message on a new broker fails,
    but nothing is closed for it.  All the listener does is log the
    exception; its [close()] finds no session, and the websocket is left
    open. *)
Lemma changes_without_session_close_nothing :
  performedSince (CB.new "r1")
    (CB.brokerOf (CB.onMessage (obliging 1%nat) (DecodesTo changes) (CB.new "r1")))
    = [CB.ConsoleError CB.NullSyncConnection] /\
  ~ closesConnection (CB.new "r1")
      (CB.brokerOf (CB.onMessage (obliging 1%nat) (DecodesTo changes) (CB.new "r1"))) /\
  ~ failsClosingConnection (obliging 1%nat) changes (CB.new "r1").
Proof.
  assert (H : ~ closesConnection (CB.new "r1")
                (CB.brokerOf (CB.onMessage (obliging 1%nat) (DecodesTo changes)
                                (CB.new "r1")))).
  { intros [c Hc]. vm_compute in Hc. destruct Hc as [Hc|[]]. discriminate. }
  split; [reflexivity|]. split; [exact H|].
  intros (_ & Hcl & _). exact (H Hcl).
Qed.

(** C8, amended.  With no session owned, a Changes or RejectChanges message
    always fails: [#handleMessage] throws (the call on the null session
    reference) before anything else happens.  The listener logs the
    exception and calls [close()], which finds no session and closes
    nothing: the log entry is all that was done.  No session method is
    called, no session is created, the broker still owns none, and nothing
    escapes the listener. *)
Theorem changes_without_session_fail (env : CB.Answers) (msg : Msg) (b : CB.t) :
  CB.syncConnection b = None ->
  _tag msg = Changes \/ _tag msg = RejectChanges ->
  CB.handleMessage env msg b = CB.Throws CB.NullSyncConnection b /\
  exists b',
    CB.onMessage env (DecodesTo msg) b = CB.Returns b' /\
    CB.effects b' = CB.effects b ++ [CB.ConsoleError CB.NullSyncConnection] /\
    performedSince b b' = [CB.ConsoleError CB.NullSyncConnection] /\
    ~ closesConnection b b' /\
    sessionCalls b' = sessionCalls b /\
    CB.closeCalls b' = S (CB.closeCalls b) /\
    CB.syncConnection b' = None /\
    CB.created b' = CB.created b.
Proof.
  intros Hnone Htag.
  assert (H : CB.handleMessage env msg b = CB.Throws CB.NullSyncConnection b).
  { unfold CB.handleMessage. destruct Htag as [-> | ->]; now rewrite Hnone. }
  split; [exact H|].
  unfold CB.onMessage. rewrite H. simpl CB.tryCatch.
  eexists. split; [reflexivity|].
  destruct (close_fields (CB.perform (CB.ConsoleError CB.NullSyncConnection) b))
    as (C1 & _ & C3 & C4 & C5).
  assert (E : CB.effects (CB.close (CB.perform (CB.ConsoleError CB.NullSyncConnection) b))
              = CB.effects b ++ [CB.ConsoleError CB.NullSyncConnection]).
  { rewrite C5. simpl. rewrite Hnone. now rewrite app_nil_r. }
  assert (P : performedSince b
                (CB.close (CB.perform (CB.ConsoleError CB.NullSyncConnection) b))
              = [CB.ConsoleError CB.NullSyncConnection]).
  { unfold performedSince. rewrite E.
    rewrite skipn_app, skipn_all, Nat.sub_diag. reflexivity. }
  split; [exact E|]. split; [exact P|]. split.
  { intros [c Hc]. rewrite P in Hc. destruct Hc as [Hc|[]]. discriminate. }
  unfold sessionCalls. rewrite C1, C3, C4, E. simpl. rewrite Hnone.
  repeat split.
  rewrite filter_app. simpl. now rewrite app_nil_r.
Qed.

Lemma changes_without_session_fail_witness :
  CB.handleMessage (obliging 1%nat) changes (CB.new "r1")
    = CB.Throws CB.NullSyncConnection (CB.new "r1") /\
  CB.handleMessage (obliging 1%nat) rejectChanges (CB.new "r1")
    = CB.Throws CB.NullSyncConnection (CB.new "r1").
Proof.
  split.
  - exact (proj1 (changes_without_session_fail (obliging 1%nat) changes
                    (CB.new "r1") eq_refl (or_introl eq_refl))).
  - exact (proj1 (changes_without_session_fail (obliging 1%nat) rejectChanges
                    (CB.new "r1") eq_refl (or_intror eq_refl))).
Defined.

(** *** [close()] *)

(** C4 does not hold as stated: after [close()], a broker that owns a
    session does not refuse a Changes message but calls [receiveChanges] on
    that session. *)
Lemma changes_forwarded_after_close :
  CB.handleMessage (obliging 1%nat) changes (CB.close activeBroker)
    = CB.Suspends CB.AwaitReceiveChanges
        (CB.perform (CB.ReceiveChanges 1%nat changes) (CB.close activeBroker)) /\
  sessionCalls (CB.brokerOf
                  (CB.handleMessage (obliging 1%nat) changes (CB.close activeBroker)))
    = [CB.Start 1%nat; CB.Close 1%nat; CB.ReceiveChanges 1%nat changes] /\
  ~ refusedAfterClose (obliging 1%nat) changes activeBroker.
Proof.
  split; [reflexivity|]. split; [reflexivity|].
  intros [[e He] _]. vm_compute in He. discriminate.
Qed.

(** C4, amended.  [close()] calls [close()] on the owned session, if there
    is one, and otherwise only counts as called: the session reference is
    kept and the broker has no closed flag.  A message handled after
    [close()] is dispatched as it would have been before.  With a session
    owned, Changes and RejectChanges still reach that session and
    AnnouncePresence fails as a duplicate; with none owned, Changes and
    RejectChanges fail and AnnouncePresence calls the Session Factory. *)
Theorem dispatch_after_close (env : CB.Answers) (msg : Msg) (b : CB.t) :
  CB.syncConnection (CB.close b) = CB.syncConnection b /\
  verdict (CB.handleMessage env msg (CB.close b))
    = verdict (CB.handleMessage env msg b) /\
  (forall c, CB.syncConnection b = Some c ->
     CB.effects (CB.close b) = CB.effects b ++ [CB.Close c] /\
     (_tag msg = Changes ->
        CB.handleMessage env msg (CB.close b)
          = CB.Suspends CB.AwaitReceiveChanges
              (CB.perform (CB.ReceiveChanges c msg) (CB.close b))) /\
     (_tag msg = RejectChanges ->
        CB.effects (CB.brokerOf (CB.handleMessage env msg (CB.close b)))
          = CB.effects (CB.close b) ++ [CB.ChangesRejected c msg]) /\
     (_tag msg = AnnouncePresence ->
        CB.handleMessage env msg (CB.close b)
          = CB.Throws (CB.AlreadyStarted (CB.room b)) (CB.close b))) /\
  (CB.syncConnection b = None ->
     CB.effects (CB.close b) = CB.effects b /\
     (_tag msg = Changes \/ _tag msg = RejectChanges ->
        CB.handleMessage env msg (CB.close b)
          = CB.Throws CB.NullSyncConnection (CB.close b)) /\
     (_tag msg = AnnouncePresence ->
        CB.handleMessage env msg (CB.close b)
          = CB.Suspends CB.AwaitCreateSyncConnection
              (CB.perform (CB.CreateSyncConnection (CB.room b) msg) (CB.close b)))).
Proof.
  destruct (close_fields b) as (C1 & C2 & _ & _ & C5).
  split; [exact C1|]. split; [|split].
  - unfold CB.handleMessage. rewrite C1, C2.
    destruct (_tag msg), (CB.syncConnection b); simpl; auto.
    destruct (CB.changesRejected_throws env); reflexivity.
  - intros c Hc. split; [now rewrite C5, Hc|].
    unfold CB.handleMessage. rewrite C1, C2, Hc.
    split; [|split]; intros ->; auto.
    destruct (CB.changesRejected_throws env); reflexivity.
  - intros Hnone. split; [now rewrite C5, Hnone, app_nil_r|].
    unfold CB.handleMessage. rewrite C1, C2, Hnone.
    split; [intros [-> | ->]|intros ->]; reflexivity.
Qed.

Lemma dispatch_after_close_witness :
  CB.handleMessage (obliging 1%nat) changes (CB.close activeBroker)
    = CB.Suspends CB.AwaitReceiveChanges
        (CB.perform (CB.ReceiveChanges 1%nat changes) (CB.close activeBroker)) /\
  CB.handleMessage (obliging 1%nat) announcePresence (CB.close (CB.new "r1"))
    = CB.Suspends CB.AwaitCreateSyncConnection
        (CB.perform (CB.CreateSyncConnection "r1" announcePresence)
           (CB.close (CB.new "r1"))).
Proof.
  split.
  - destruct (dispatch_after_close (obliging 1%nat) changes activeBroker)
      as (_ & _ & Howned & _).
    destruct (Howned 1%nat eq_refl) as (_ & Hchanges & _).
    exact (Hchanges eq_refl).
  - destruct (dispatch_after_close (obliging 1%nat) announcePresence (CB.new "r1"))
      as (_ & _ & _ & Hnone).
    destruct (Hnone eq_refl) as (_ & _ & Hannounce).
    exact (Hannounce eq_refl).
Defined.

(** *** The listener's [try] / [catch] *)

(** Whatever a decoded message makes [#handleMessage] do, and however the
    collaborators answer, the listener run to its end returns; an exception
    on the way is logged with [console.error] and followed by [close()]. *)
Lemma dispatch_exceptions_are_caught (env : CB.Answers) (msg : Msg) (b : CB.t) :
  exists b', CB.onMessageToEnd env (DecodesTo msg) b = CB.Returns b' /\
    forall e b1,
      (CB.handleMessage env msg b = CB.Throws e b1 \/
       exists a b0, CB.handleMessage env msg b = CB.Suspends a b0 /\
                    CB.resume env a b0 = CB.Throws e b1) ->
      b' = CB.close (CB.perform (CB.ConsoleError e) b1).
Proof.
  unfold CB.onMessageToEnd, CB.onMessage.
  destruct (CB.handleMessage env msg b) as [b1|e1 b1|a b0] eqn:H; simpl.
  - exists b1. split; auto. intros e b2 [Habs|(a & b0 & Habs & _)]; discriminate.
  - eexists. split; [reflexivity|].
    intros e b2 [Heq|(a & b0 & Habs & _)]; [now injection Heq as -> ->|discriminate].
  - unfold CB.onSettled.
    destruct (CB.resume env a b0) as [b1|e1 b1|a1 b1] eqn:R; simpl.
    + exists b1. split; auto.
      intros e b2 [Habs|(a' & b0' & Heq & R')]; [discriminate|].
      injection Heq as -> ->. congruence.
    + eexists. split; [reflexivity|].
      intros e b2 [Habs|(a' & b0' & Heq & R')]; [discriminate|].
      injection Heq as -> ->. rewrite R in R'. now injection R' as -> ->.
    + exfalso. unfold CB.resume in R. destruct a.
      * destruct (CB.createSyncConnection_settles env); [|discriminate].
        destruct (CB.start_throws env); discriminate.
      * destruct (CB.receiveChanges_rejects env); discriminate.
Qed.

(** C5, at the failing input.  When [decode] throws on the bytes of a
    frame, the exception leaves the listener: [decode] is called before the
    [try], so nothing is logged, [close()] is not called and the broker is
    left as it was. *)
Theorem decode_failure_escapes (env : CB.Answers) (reason : string) (b : CB.t) :
  CB.onMessage env (DecodeThrows reason) b = CB.Throws (CB.DecodeFailed reason) b /\
  CB.onMessageToEnd env (DecodeThrows reason) b
    = CB.Throws (CB.DecodeFailed reason) b /\
  CB.closeCalls (CB.brokerOf (CB.onMessageToEnd env (DecodeThrows reason) b))
    = CB.closeCalls b /\
  CB.effects (CB.brokerOf (CB.onMessageToEnd env (DecodeThrows reason) b))
    = CB.effects b.
Proof. repeat split. Qed.

(** *** One session per connection *)

(** An AnnouncePresence whose listener starts while a session is owned
    fails before the Session Factory is called; the listener logs the
    error and closes the owned session, which stays the owned one. *)
Lemma announce_with_session_owned (env : CB.Answers) (msg : Msg) (b : CB.t) c :
  CB.syncConnection b = Some c ->
  _tag msg = AnnouncePresence ->
  CB.handleMessage env msg b = CB.Throws (CB.AlreadyStarted (CB.room b)) b /\
  exists b',
    CB.onMessage env (DecodesTo msg) b = CB.Returns b' /\
    CB.effects b'
      = CB.effects b ++ [CB.ConsoleError (CB.AlreadyStarted (CB.room b)); CB.Close c] /\
    CB.syncConnection b' = Some c /\
    CB.created b' = CB.created b /\
    CB.closeCalls b' = S (CB.closeCalls b).
Proof.
  intros Hc Htag.
  assert (H : CB.handleMessage env msg b = CB.Throws (CB.AlreadyStarted (CB.room b)) b).
  { unfold CB.handleMessage. now rewrite Htag, Hc. }
  split; [exact H|].
  unfold CB.onMessage. rewrite H. simpl CB.tryCatch.
  eexists. split; [reflexivity|].
  destruct (close_fields
              (CB.perform (CB.ConsoleError (CB.AlreadyStarted (CB.room b))) b))
    as (C1 & _ & C3 & C4 & C5).
  rewrite C1, C3, C4, C5. simpl. rewrite Hc, <- app_assoc. repeat split.
Qed.

Lemma singleSession_same b b' :
  CB.syncConnection b' = CB.syncConnection b -> CB.created b' = CB.created b ->
  singleSession b -> singleSession b'.
Proof. unfold singleSession. intros -> ->. auto. Qed.

Lemma singleSession_tryCatch r :
  singleSession (CB.brokerOf r) -> singleSession (CB.brokerOf (CB.tryCatch r)).
Proof.
  destruct r as [b|e b|a b]; simpl; auto.
  apply singleSession_same; now destruct (close_fields (CB.perform (CB.ConsoleError e) b))
    as (? & _ & ? & _).
Qed.

Lemma singleSession_handleMessage env msg b :
  singleSession b ->
  singleSession (CB.brokerOf (CB.handleMessage env msg b)) /\
  forall b0, CB.handleMessage env msg b = CB.Suspends CB.AwaitCreateSyncConnection b0 ->
             CB.syncConnection b0 = None.
Proof.
  intros H. unfold CB.handleMessage.
  destruct (_tag msg), (CB.syncConnection b) as [c|] eqn:E; simpl.
  all: try (destruct (CB.changesRejected_throws env); simpl).
  all: split;
    [apply (singleSession_same b); [reflexivity | reflexivity | exact H]
    |intros b0 Hb0; try discriminate].
  all: injection Hb0 as <-; exact E.
Qed.

Lemma singleSession_resume env a b :
  singleSession b ->
  (a = CB.AwaitCreateSyncConnection -> CB.syncConnection b = None) ->
  singleSession (CB.brokerOf (CB.resume env a b)).
Proof.
  intros H Hnone. destruct a; simpl.
  - destruct (CB.createSyncConnection_settles env) as [c|e]; [|exact H].
    assert (Hc : CB.created b = []) by (apply H; auto).
    destruct (CB.start_throws env); simpl; rewrite Hc;
      split; simpl; auto; discriminate.
  - destruct (CB.receiveChanges_rejects env); exact H.
Qed.

Lemma serialStep_single_session (b : CB.t) (ev : CB.SerialEvent) :
  singleSession b -> singleSession (CB.serialStep b ev).
Proof.
  intros H. destruct ev as [env [msg|reason]|]; simpl.
  - unfold CB.onMessageToEnd, CB.onMessage.
    destruct (singleSession_handleMessage env msg b H) as [H1 H2].
    destruct (CB.handleMessage env msg b) as [b1|e b1|a b1] eqn:R.
    + exact H1.
    + now apply (singleSession_tryCatch (CB.Throws e b1)).
    + simpl. apply singleSession_tryCatch, singleSession_resume; auto.
      intros ->. now apply H2.
  - exact H.
  - apply (singleSession_same b); auto; now destruct (close_fields b) as (? & _ & ? & _).
Qed.

(** Handled one at a time, messages and close events never make the
    factory produce a second session. *)
Lemma serial_single_session (evs : list CB.SerialEvent) (room : string) :
  (List.length (CB.created (CB.runSerial evs (CB.new room))) <= 1)%nat.
Proof.
  assert (Inv : forall b, singleSession b -> singleSession (CB.runSerial evs b)).
  { induction evs as [|ev evs IH]; intros b H; [exact H|].
    change (CB.runSerial (ev :: evs) b) with (CB.runSerial evs (CB.serialStep b ev)).
    now apply IH, serialStep_single_session. }
  apply Inv. split; simpl; auto.
Qed.

(** C6, at the failing input.  A second AnnouncePresence delivered while the
    listener of the first is still waiting for the Session Factory passes
    the same null check: the factory is called twice, both sessions are
    started, and the second replaces the first as the owned session. *)
Theorem overlapping_announces_create_two_sessions :
  let c := CB.run twoAnnouncesOverlapping (CB.accept "r1") in
  CB.created (CB.broker c) = [1%nat; 2%nat] /\
  CB.syncConnection (CB.broker c) = Some 2%nat /\
  CB.effects (CB.broker c)
    = [CB.CreateSyncConnection "r1" announcePresence;
       CB.CreateSyncConnection "r1" announcePresence;
       CB.Start 1%nat; CB.Start 2%nat] /\
  CB.suspended c = [].
Proof. repeat split. Qed.

(** * Further properties of the link *)

(** ** What the sweep reaches *)

Lemma rejectEach_live_without_sentinel
    (table other : t -> list (Z * PromiseId)) (call : PromiseId -> Msg -> t -> t) :
  (forall p s,
     table (call p connectionClosed s) = JsMap.delete (-1) (table s) /\
     other (call p connectionClosed s) = other s /\
     settlements (call p connectionClosed s)
       = settlements s ++ [(p, Reject connectionClosed)]) ->
  forall slots s,
    ~ In (-1) (JsMap.keys (table s)) ->
    (forall e, In e slots -> fst e <> -1 -> JsMap.has (fst e) (table s) = true) ->
    table (rejectEach table call slots s) = table s /\
    other (rejectEach table call slots s) = other s /\
    settlements (rejectEach table call slots s)
      = settlements s
        ++ map (fun p => (p, Reject connectionClosed))
             (map snd (filter (fun e => negb (fst e =? -1)) slots)).
Proof.
  intros Hcall. induction slots as [|[k p] slots IH]; intros s Hfree Hlive; simpl.
  - now rewrite app_nil_r.
  - destruct (k =? -1) eqn:Ek; simpl.
    + apply Z.eqb_eq in Ek. subst k.
      assert (Hno : JsMap.has (-1) (table s) = false).
      { unfold JsMap.has. apply get_none_notin in Hfree. now rewrite Hfree. }
      rewrite Hno. apply IH; auto. intros e He. apply Hlive. now right.
    + apply Z.eqb_neq in Ek.
      assert (Hh : JsMap.has k (table s) = true)
        by exact (Hlive (k, p) (or_introl eq_refl) Ek).
      rewrite Hh.
      destruct (Hcall p s) as (H1 & H2 & H3).
      rewrite (delete_absent _ _ Hfree) in H1.
      destruct (IH (call p connectionClosed s)) as (I1 & I2 & I3).
      * now rewrite H1.
      * rewrite H1. intros e He. apply Hlive. now right.
      * rewrite I1, I2, I3, H1, H2, H3, <- app_assoc. auto.
Qed.

Lemma rejectEach_table
    (table other : t -> list (Z * PromiseId)) (call : PromiseId -> Msg -> t -> t) :
  (forall p s,
     table (call p connectionClosed s) = JsMap.delete (-1) (table s) /\
     other (call p connectionClosed s) = other s /\
     settlements (call p connectionClosed s)
       = settlements s ++ [(p, Reject connectionClosed)]) ->
  forall s,
    other (rejectEach table call (table s) s) = other s /\
    settlements (rejectEach table call (table s) s)
      = settlements s
        ++ map (fun p => (p, Reject connectionClosed)) (swept (table s)).
Proof.
  intros Hcall s. destruct (table s) as [|[k p] rest] eqn:Et; simpl.
  - now rewrite app_nil_r.
  - unfold JsMap.has. rewrite Et. simpl. rewrite Z.eqb_refl.
    destruct (Hcall p s) as (H1 & H2 & H3).
    destruct (rejectEach_live_without_sentinel table other call Hcall rest
                (call p connectionClosed s)) as (_ & I2 & I3).
    + rewrite H1. apply get_none_notin, get_delete_same.
    + intros [k' p'] He Hne. simpl in *. rewrite H1, Et. unfold JsMap.has.
      rewrite get_delete_other by assumption.
      assert (Hin : In k' (JsMap.keys ((k, p) :: rest))).
      { right. unfold JsMap.keys. change k' with (fst (k', p')). now apply in_map. }
      destruct (JsMap.get k' ((k, p) :: rest)) eqn:G; auto.
      apply get_none_notin in G. contradiction.
    + rewrite I2, I3, H2, H3, <- app_assoc. auto.
Qed.

Lemma createDbResolver_closing p s :
  createDbRequests (createDbResolver p connectionClosed s)
    = JsMap.delete (-1) (createDbRequests s) /\
  applyChangesRequests (createDbResolver p connectionClosed s)
    = applyChangesRequests s /\
  settlements (createDbResolver p connectionClosed s)
    = settlements s ++ [(p, Reject connectionClosed)].
Proof. exact (createDbResolver_tables p connectionClosed s). Qed.

Lemma applyChangesResolver_closing p s :
  applyChangesRequests (applyChangesResolver p connectionClosed s)
    = JsMap.delete (-1) (applyChangesRequests s) /\
  createDbRequests (applyChangesResolver p connectionClosed s)
    = createDbRequests s /\
  settlements (applyChangesResolver p connectionClosed s)
    = settlements s ++ [(p, Reject connectionClosed)].
Proof. exact (applyChangesResolver_tables p connectionClosed s). Qed.

Lemma rejectPending_settlements s :
  settlements (rejectPending s)
    = settlements s
      ++ map (fun p => (p, Reject connectionClosed))
           (swept (createDbRequests s) ++ swept (applyChangesRequests s)).
Proof.
  unfold rejectPending.
  destruct (rejectEach_table createDbRequests applyChangesRequests
              createDbResolver createDbResolver_closing s) as (A2 & A3).
  set (s1 := rejectEach createDbRequests _ (createDbRequests s) s) in *.
  set (s2 := with_createDbRequests [] s1).
  destruct (rejectEach_table applyChangesRequests createDbRequests
              applyChangesResolver applyChangesResolver_closing s2) as (_ & C3).
  change (settlements (with_applyChangesRequests [] ?x)) with (settlements x).
  rewrite C3.
  change (settlements s2) with (settlements s1).
  change (applyChangesRequests s2) with (applyChangesRequests s1).
  now rewrite A3, A2, <- app_assoc, map_app.
Qed.

(** X1.  What [#rejectPending] does on any link: in each table it rejects
    the oldest entry and every later entry whose request id is not -1,
    each once and with the connection-closed [Err], in table order; it
    settles nothing else, empties both tables and leaves the rest of the
    link alone.  [close()] and, while the closed flag is unset, the error
    and close listeners settle exactly the same promises. *)
Theorem sweep_reaches (e : string) (s : t) :
  let rejected :=
    map (fun p => (p, Reject connectionClosed))
      (swept (createDbRequests s) ++ swept (applyChangesRequests s)) in
  settlements (rejectPending s) = settlements s ++ rejected /\
  createDbRequests (rejectPending s) = [] /\
  applyChangesRequests (rejectPending s) = [] /\
  sameLink s (rejectPending s) /\
  settlements (close s) = settlements s ++ rejected /\
  settlements (onError e s) = (if closed s then settlements s
                               else settlements s ++ rejected) /\
  settlements (onClose s) = (if closed s then settlements s
                             else settlements s ++ rejected).
Proof.
  intros rejected.
  destruct (rejectPending_tables s) as [T1 T2].
  split; [apply rejectPending_settlements|]. split; [exact T1|]. split; [exact T2|].
  split; [apply rejectPending_sameLink|]. split; [|split].
  - exact (rejectPending_settlements
             (clearInterval (socket_destroy (with_closed true s)))).
  - unfold onError. destruct (closed s); simpl negb; cbv iota; auto.
    apply rejectPending_settlements.
  - unfold onClose. destruct (closed s); simpl negb; cbv iota; auto.
    apply rejectPending_settlements.
Qed.

(** ** Promises over whole runs *)

Lemma NoDup_app_inv {A : Type} (l1 l2 : list A) :
  NoDup (l1 ++ l2) ->
  NoDup l1 /\ NoDup l2 /\ forall a, In a l1 -> ~ In a l2.
Proof.
  induction l1 as [|x l1 IH]; simpl; intros H.
  - repeat split; auto. constructor.
  - inversion H as [|? ? Hx Hnd]; subst.
    destruct (IH Hnd) as (H1 & H2 & H3).
    split; [|split; auto].
    + constructor; auto. intros Hin. apply Hx, in_or_app. now left.
    + intros a [<-|Ha]; auto. intros Hin. apply Hx, in_or_app. now right.
Qed.

Section PromiseLists.
Implicit Types (m : list (Z * PromiseId)) (k : Z) (p q : PromiseId).

Lemma set_promises_in k p m q :
  In q (map snd (JsMap.set k p m)) -> q = p \/ In q (map snd m).
Proof.
  induction m as [|[k' p'] m IH]; simpl.
  - intros [<-|[]]. now left.
  - destruct (k =? k'); simpl; intros [<-|H]; auto.
    destruct (IH H); auto.
Qed.

Lemma set_promises_NoDup k p m :
  NoDup (map snd m) -> ~ In p (map snd m) -> NoDup (map snd (JsMap.set k p m)).
Proof.
  induction m as [|[k' p'] m IH]; simpl; intros Hnd Hp.
  - repeat constructor. intros [].
  - inversion Hnd as [|? ? Hp' Hnd']; subst.
    destruct (k =? k'); simpl; constructor; auto.
    intros Hin. destruct (set_promises_in _ _ _ _ Hin) as [->|Hin']; auto.
Qed.

Lemma filter_promises_incl (f : Z * PromiseId -> bool) m :
  incl (map snd (filter f m)) (map snd m).
Proof.
  intros q Hq. apply in_map_iff in Hq. destruct Hq as [e [<- He]].
  apply filter_In in He. apply in_map. tauto.
Qed.

Lemma filter_promises_NoDup (f : Z * PromiseId -> bool) m :
  NoDup (map snd m) -> NoDup (map snd (filter f m)).
Proof.
  induction m as [|e m IH]; simpl; intros Hnd; [constructor|].
  inversion Hnd as [|? ? He Hnd']; subst.
  destruct (f e); simpl; auto. constructor; auto.
  intros Hin. apply He. eapply filter_promises_incl; eauto.
Qed.

Lemma get_promise_in k p m : JsMap.get k m = Some p -> In p (map snd m).
Proof.
  induction m as [|[k' p'] m IH]; simpl; [discriminate|].
  destruct (k =? k'); [intros [= ->]; now left | intros H; right; auto].
Qed.

Lemma delete_promise_gone k p m :
  JsMap.get k m = Some p -> NoDup (map snd m) ->
  ~ In p (map snd (JsMap.delete k m)).
Proof.
  induction m as [|[k' p'] m IH]; simpl; [discriminate|].
  intros Hget Hnd. inversion Hnd as [|? ? Hp' Hnd']; subst.
  rewrite Z.eqb_sym. destruct (k =? k') eqn:E; simpl.
  - injection Hget as ->. intros Hin. apply Hp'.
    eapply filter_promises_incl; eauto.
  - intros [->|Hin]; [|now apply IH].
    apply Hp'. eapply get_promise_in; eauto.
Qed.

Lemma swept_incl m : incl (swept m) (map snd m).
Proof.
  destruct m as [|[k p] m]; simpl; [intros ? []|].
  intros q [<-|Hq]; [now left | right; eapply filter_promises_incl; eauto].
Qed.

Lemma swept_NoDup m : NoDup (map snd m) -> NoDup (swept m).
Proof.
  destruct m as [|[k p] m]; simpl; intros Hnd; [constructor|].
  inversion Hnd as [|? ? Hp Hnd']; subst. constructor.
  - intros Hin. apply Hp. eapply filter_promises_incl; eauto.
  - now apply filter_promises_NoDup.
Qed.

End PromiseLists.

Lemma pendingPromises_split s :
  pendingPromises s
    = map snd (createDbRequests s) ++ map snd (applyChangesRequests s).
Proof. unfold pendingPromises. apply map_app. Qed.

Lemma settledPromises_app s l :
  map fst (settlements s ++ l) = settledPromises s ++ map fst l.
Proof. unfold settledPromises. apply map_app. Qed.

(** [#handleMessage] returns in three ways only. *)
Lemma handleMessage_returns now msg s s' :
  handleMessage now msg s = inr s' ->
  (_tag msg = Pong /\ s' = with_lastPong now s) \/
  (exists p, JsMap.get (_reqid msg) (createDbRequests s) = Some p /\
             s' = createDbResolver p msg s) \/
  (exists p, JsMap.get (_reqid msg) (applyChangesRequests s) = Some p /\
             s' = applyChangesResolver p msg s).
Proof.
  unfold handleMessage. destruct (_tag msg); try discriminate.
  - destruct (JsMap.get (_reqid msg) (createDbRequests s)) as [p|]; [|discriminate].
    intros [= <-]. right. left. eauto.
  - destruct (JsMap.get (_reqid msg) (applyChangesRequests s)) as [p|]; [|discriminate].
    intros [= <-]. right. right. eauto.
  - intros [= <-]. now left.
  - destruct (JsMap.get (_reqid msg) (createDbRequests s)) as [p|].
    + intros [= <-]. right. left. eauto.
    + destruct (JsMap.get (_reqid msg) (applyChangesRequests s)) as [p|];
        [|discriminate].
      intros [= <-]. right. right. eauto.
Qed.

Lemma promisesInOrder_same s s' :
  createDbRequests s' = createDbRequests s ->
  applyChangesRequests s' = applyChangesRequests s ->
  settlements s' = settlements s -> promises s' = promises s ->
  promisesInOrder s -> promisesInOrder s'.
Proof.
  unfold promisesInOrder, pendingPromises, settledPromises.
  now intros -> -> -> ->.
Qed.

Lemma promisesInOrder_registered (s s' : t) (p : PromiseId) :
  promisesInOrder s -> p = promises s -> promises s' = S p ->
  settlements s' = settlements s ->
  NoDup (pendingPromises s') ->
  (forall q, In q (pendingPromises s') -> q = p \/ In q (pendingPromises s)) ->
  promisesInOrder s'.
Proof.
  intros (H1 & H2 & H3 & H4) -> Hp Hs Hnd Hin.
  unfold promisesInOrder, settledPromises in *. rewrite Hs, Hp.
  split; [exact Hnd|]. split; [exact H2|]. split.
  - intros q Hq. destruct (Hin q Hq) as [->|Hq'].
    + split; [lia|]. intros Hs'. apply H4 in Hs'. lia.
    + destruct (H3 q Hq'). split; [lia|auto].
  - intros q Hq. apply H4 in Hq. lia.
Qed.

Lemma promisesInOrder_send_createDb msg s :
  promisesInOrder s -> promisesInOrder (afterSendCreateDb msg s).
Proof.
  intros H. pose proof H as (H1 & H2 & H3 & H4).
  rewrite pendingPromises_split in H1. destruct (NoDup_app_inv _ _ H1) as (N1 & N2 & N3).
  assert (Hfresh : ~ In (promises s) (pendingPromises s)).
  { intros Hin. apply H3 in Hin. lia. }
  rewrite pendingPromises_split in Hfresh.
  apply (promisesInOrder_registered s _ (promises s)); auto;
    rewrite pendingPromises_split; simpl.
  - apply NoDup_app; auto.
    + apply set_promises_NoDup; auto. intros Hin. apply Hfresh, in_or_app. now left.
    + intros q Hq Hq'. destruct (set_promises_in _ _ _ _ Hq) as [->|Hq''].
      * apply Hfresh, in_or_app. now right.
      * exact (N3 q Hq'' Hq').
  - intros q Hq. rewrite pendingPromises_split. apply in_app_or in Hq.
    destruct Hq as [Hq|Hq].
    + destruct (set_promises_in _ _ _ _ Hq); auto. right. apply in_or_app. now left.
    + right. apply in_or_app. now right.
Qed.

Lemma promisesInOrder_send_applyChanges msg s :
  promisesInOrder s -> promisesInOrder (afterSendApplyChanges msg s).
Proof.
  intros H. pose proof H as (H1 & H2 & H3 & H4).
  rewrite pendingPromises_split in H1. destruct (NoDup_app_inv _ _ H1) as (N1 & N2 & N3).
  assert (Hfresh : ~ In (promises s) (pendingPromises s)).
  { intros Hin. apply H3 in Hin. lia. }
  rewrite pendingPromises_split in Hfresh.
  apply (promisesInOrder_registered s _ (promises s)); auto;
    rewrite pendingPromises_split; simpl.
  - apply NoDup_app; auto.
    + apply set_promises_NoDup; auto. intros Hin. apply Hfresh, in_or_app. now right.
    + intros q Hq Hq'. destruct (set_promises_in _ _ _ _ Hq') as [->|Hq''].
      * apply Hfresh, in_or_app. now left.
      * exact (N3 q Hq Hq'').
  - intros q Hq. rewrite pendingPromises_split. apply in_app_or in Hq.
    destruct Hq as [Hq|Hq].
    + right. apply in_or_app. now left.
    + destruct (set_promises_in _ _ _ _ Hq); auto. right. apply in_or_app. now right.
Qed.

(** A pending promise is settled and the tables shrink. *)
Lemma promisesInOrder_settled (s s' : t) (p : PromiseId) (o : Settlement) :
  promisesInOrder s -> In p (pendingPromises s) ->
  settlements s' = settlements s ++ [(p, o)] -> promises s' = promises s ->
  NoDup (pendingPromises s') ->
  incl (pendingPromises s') (pendingPromises s) ->
  ~ In p (pendingPromises s') ->
  promisesInOrder s'.
Proof.
  intros (H1 & H2 & H3 & H4) Hp Hs Hpr Hnd Hincl Hgone.
  unfold promisesInOrder. unfold settledPromises at 1 2 3.
  rewrite Hs, Hpr, !settledPromises_app. simpl.
  destruct (H3 p Hp) as [Hlt Hns].
  split; [exact Hnd|]. split; [|split].
  - apply NoDup_app; auto.
    + repeat constructor. intros [].
    + intros q Hq [<-|[]]. contradiction.
  - intros q Hq. destruct (H3 q (Hincl q Hq)) as [Hq1 Hq2]. split; auto.
    intros Hin. apply in_app_or in Hin. destruct Hin as [Hin|[<-|[]]]; auto.
  - intros q Hq. apply in_app_or in Hq. destruct Hq as [Hq|[<-|[]]]; auto.
Qed.

Lemma promisesInOrder_handleMessage now msg s s' :
  handleMessage now msg s = inr s' -> promisesInOrder s -> promisesInOrder s'.
Proof.
  intros Hh H. pose proof H as (H1 & _).
  rewrite pendingPromises_split in H1. destruct (NoDup_app_inv _ _ H1) as (N1 & N2 & N3).
  destruct (handleMessage_returns now msg s s' Hh)
    as [[_ ->]|[(p & Hget & ->)|(p & Hget & ->)]].
  - now apply (promisesInOrder_same s).
  - destruct (createDbResolver_tables p msg s) as (T1 & T2 & T3).
    assert (Hp : In p (map snd (createDbRequests s))) by (eapply get_promise_in; eauto).
    eapply (promisesInOrder_settled s); eauto;
      rewrite ?pendingPromises_split, ?T1, ?T2.
    + apply in_or_app. now left.
    + unfold createDbResolver. now destruct (Tag_eqb (_tag msg) Err).
    + apply NoDup_app; auto.
      * now apply filter_promises_NoDup.
      * intros q Hq. apply N3. eapply filter_promises_incl; eauto.
    + intros q Hq. apply in_app_or in Hq. apply in_or_app.
      destruct Hq as [Hq|Hq]; [left; eapply filter_promises_incl; eauto | now right].
    + intros Hin. apply in_app_or in Hin. destruct Hin as [Hin|Hin].
      * eapply delete_promise_gone; eauto.
      * exact (N3 p Hp Hin).
  - destruct (applyChangesResolver_tables p msg s) as (T1 & T2 & T3).
    assert (Hp : In p (map snd (applyChangesRequests s)))
      by (eapply get_promise_in; eauto).
    eapply (promisesInOrder_settled s); eauto;
      rewrite ?pendingPromises_split, ?T1, ?T2.
    + apply in_or_app. now right.
    + unfold applyChangesResolver. now destruct (Tag_eqb (_tag msg) Err).
    + apply NoDup_app; auto.
      * now apply filter_promises_NoDup.
      * intros q Hq Hq'. apply (N3 q Hq). eapply filter_promises_incl; eauto.
    + intros q Hq. apply in_app_or in Hq. apply in_or_app.
      destruct Hq as [Hq|Hq]; [now left | right; eapply filter_promises_incl; eauto].
    + intros Hin. apply in_app_or in Hin. destruct Hin as [Hin|Hin].
      * exact (N3 p Hin Hp).
      * eapply delete_promise_gone; eauto.
Qed.

Lemma promisesInOrder_rejectPending s :
  promisesInOrder s -> promisesInOrder (rejectPending s).
Proof.
  intros (H1 & H2 & H3 & H4).
  rewrite pendingPromises_split in H1. destruct (NoDup_app_inv _ _ H1) as (N1 & N2 & N3).
  destruct (rejectPending_tables s) as [T1 T2].
  destruct (rejectPending_sameLink s) as (_ & _ & _ & _ & _ & _ & Hpr).
  assert (Hsw : forall q, In q (swept (createDbRequests s)
                                  ++ swept (applyChangesRequests s)) ->
                          In q (pendingPromises s)).
  { intros q Hq. rewrite pendingPromises_split. apply in_app_or in Hq.
    apply in_or_app. destruct Hq as [Hq|Hq]; [left|right]; eapply swept_incl; eauto. }
  unfold promisesInOrder, pendingPromises. unfold settledPromises at 1 2 3.
  rewrite T1, T2, Hpr, rejectPending_settlements, settledPromises_app, map_map.
  simpl. rewrite map_id.
  split; [constructor|]. split; [|split].
  - apply NoDup_app; auto.
    + apply NoDup_app; auto using swept_NoDup.
      intros q Hq Hq'. apply (N3 q); eapply swept_incl; eauto.
    + intros q Hq Hq'. apply Hsw in Hq'. now destruct (H3 q Hq').
  - intros q [].
  - intros q Hq. apply in_app_or in Hq. destruct Hq as [Hq|Hq]; auto.
    now destruct (H3 q (Hsw q Hq)).
Qed.

Lemma promisesInOrder_step s ev : promisesInOrder s -> promisesInOrder (linkStep s ev).
Proof.
  intros H. destruct ev as [msg|msg|now msg|e| |now| ]; simpl.
  - now apply promisesInOrder_send_createDb.
  - now apply promisesInOrder_send_applyChanges.
  - destruct (handleMessage now msg s) as [e|s'] eqn:Hh; auto.
    eapply promisesInOrder_handleMessage; eauto.
  - unfold onError. destruct (closed s); simpl; auto.
    apply (promisesInOrder_same (rejectPending s)); auto.
    now apply promisesInOrder_rejectPending.
  - unfold onClose. destruct (closed s); simpl; auto.
    apply (promisesInOrder_same (rejectPending s)); auto.
    now apply promisesInOrder_rejectPending.
  - unfold timerFires, sendPing. destruct (pingPongHandle s); auto.
    destruct (now - lastPong s >? 5000); now apply (promisesInOrder_same s).
  - unfold close. apply promisesInOrder_rejectPending.
    now apply (promisesInOrder_same s).
Qed.

Lemma promisesInOrder_run evs s : promisesInOrder s -> promisesInOrder (linkRun evs s).
Proof.
  revert s. induction evs as [|ev evs IH]; intros s H; [exact H|].
  apply IH, promisesInOrder_step, H.
Qed.

Lemma promisesInOrder_new port app id now : promisesInOrder (new port app id now).
Proof.
  unfold promisesInOrder, pendingPromises, settledPromises. simpl.
  split; [constructor|]. split; [constructor|]. split; intros p [].
Qed.

(** X2.  Whatever the owner calls and the socket delivers (writes
    succeeding), in any order, with request ids reused or not: no promise
    ever sees a second call of [resolve] / [reject], none is settled that was
    not handed out, no promise sits in the tables twice, and a promise still
    in a table has not been settled. *)
Theorem no_promise_settled_twice
    (port : Z) (app : option string) (id : string) (now : Z)
    (evs : list LinkEvent) :
  let s := linkRun evs (new port app id now) in
  NoDup (settledPromises s) /\
  NoDup (pendingPromises s) /\
  (forall p, In p (settledPromises s) -> (p < promises s)%nat) /\
  (forall p, In p (pendingPromises s) -> ~ In p (settledPromises s)).
Proof.
  destruct (promisesInOrder_run evs _ (promisesInOrder_new port app id now))
    as (H1 & H2 & H3 & H4).
  repeat split; auto. intros p Hp. now destruct (H3 p Hp).
Qed.

(** ** What a run never undoes *)

Lemma rejectEach_preserves {A : Type} (f : t -> A) table call slots s :
  (forall p msg s, f (call p msg s) = f s) ->
  f (rejectEach table call slots s) = f s.
Proof.
  intros Hcall. revert s. induction slots as [|[k r] slots IH]; intros s; simpl; auto.
  destruct (JsMap.has k (table s)); auto. now rewrite IH.
Qed.

Lemma rejectPending_target s : target (rejectPending s) = target s.
Proof.
  unfold rejectPending.
  change (target (with_applyChangesRequests [] ?x)) with (target x).
  rewrite (rejectEach_preserves target).
  - change (target (with_createDbRequests [] ?x)) with (target x).
    apply (rejectEach_preserves target).
    intros p msg s0. unfold createDbResolver.
    now destruct (Tag_eqb (_tag msg) Err).
  - intros p msg s0. unfold applyChangesResolver.
    now destruct (Tag_eqb (_tag msg) Err).
Qed.

(** ** The handlers of a premature close, in full *)

(** C10.  While the link has not been closed locally, the error and close
    listeners reject the pending requests (in each table the oldest entry
    and every later one whose id is not -1, which is all of them when none
    is pending under -1), each once and with the connection-closed [Err],
    empty the tables and call the owner once.  They change nothing else:
    the closed flag stays unset, the socket is not destroyed, the timer is
    not cancelled, and the last Pong, the writes, the promise count and the
    target are as they were.  The timer therefore goes on firing, writing
    one Ping each time, as long as no more than 5000 ms have passed since
    the last Pong, and the first firing after that destroys the socket and
    cancels the timer. *)
Theorem premature_close_leaves_heartbeat_running
    (e : string) (s : t) (period : Z) (times : list Z) (late : Z) :
  closed s = false ->
  pingPongHandle s = Some period ->
  Forall (fun now => now - lastPong s <= 5000) times ->
  5000 < late - lastPong s ->
  forall s1, s1 = onError e s \/ s1 = onClose s ->
    (settlements s1
       = settlements s
         ++ map (fun p => (p, Reject connectionClosed))
              (swept (createDbRequests s) ++ swept (applyChangesRequests s)) /\
     (sentinelFree s -> sweeps s s1) /\
     createDbRequests s1 = [] /\ applyChangesRequests s1 = [] /\
     notifiedOnce s s1) /\
    (closed s1 = false /\ socketDestroyed s1 = socketDestroyed s /\
     pingPongHandle s1 = Some period /\ lastPong s1 = lastPong s /\
     socketWrites s1 = socketWrites s /\ promises s1 = promises s /\
     target s1 = target s) /\
    (pingPongHandle (fireAll times s1) = Some period /\
     socketDestroyed (fireAll times s1) = socketDestroyed s /\
     socketWrites (fireAll times s1) = socketWrites s ++ repeat ping (List.length times)) /\
    (socketDestroyed (timerFires late (fireAll times s1)) = true /\
     pingPongHandle (timerFires late (fireAll times s1)) = None).
Proof.
  intros Hopen Hlive Htimes Hlate s1 Hs1.
  assert (E : s1 = onPrematurelyClosed (rejectPending s)).
  { destruct Hs1 as [-> | ->]; [now apply onError_open | now apply onClose_open]. }
  destruct (rejectPending_sameLink s) as (Hc & Hl & Hh & Hd & Hw & Hn & Hp).
  destruct (rejectPending_tables s) as [Ht1 Ht2].
  assert (F : closed s1 = false /\ socketDestroyed s1 = socketDestroyed s /\
              pingPongHandle s1 = Some period /\ lastPong s1 = lastPong s /\
              socketWrites s1 = socketWrites s /\ promises s1 = promises s).
  { subst s1. through_callback. rewrite Hc, Hl, Hh, Hd, Hw, Hp. auto 7. }
  destruct F as (F1 & F2 & F3 & F4 & F5 & F6).
  destruct (fireAll_within period times s1 F3) as (G1 & G2 & G3 & G4).
  { now rewrite F4. }
  split; [|split; [|split]].
  - subst s1. through_callback. rewrite Hn.
    split; [apply rejectPending_settlements|].
    split; [intros Hfree; exact (rejectPending_sweeps s Hfree)|]. auto.
  - repeat split; auto. subst s1.
    change (target (onPrematurelyClosed ?x)) with (target x).
    apply rejectPending_target.
  - rewrite G1, G3, G4, F2, F5. auto.
  - destruct (timer_step late (fireAll times s1) period G1) as [Hdead _].
    destruct Hdead as (K1 & K2 & _); [rewrite G2, F4; lia | auto].
Qed.

Lemma premature_close_leaves_heartbeat_running_witness :
  settlements (onError "ECONNRESET" linkAwaiting3And4)
    = [(0%nat, Reject connectionClosed); (1%nat, Reject connectionClosed)] /\
  closed (onError "ECONNRESET" linkAwaiting3And4) = false /\
  socketWrites (fireAll [1000; 2000; 3000; 4000; 5000]
                  (onError "ECONNRESET" linkAwaiting3And4))
    = [createDbOnPrimary 3; applyChangesOnPrimary 4;
       ping; ping; ping; ping; ping] /\
  pingPongHandle
    (timerFires 6000
       (fireAll [1000; 2000; 3000; 4000; 5000]
          (onError "ECONNRESET" linkAwaiting3And4)))
    = None.
Proof.
  assert (Htimes : Forall (fun now => now - lastPong linkAwaiting3And4 <= 5000)
                     [1000; 2000; 3000; 4000; 5000])
    by (repeat constructor; simpl; lia).
  assert (Hlate : 5000 < 6000 - lastPong linkAwaiting3And4) by (simpl; lia).
  destruct (premature_close_leaves_heartbeat_running "ECONNRESET" linkAwaiting3And4
              1000 [1000; 2000; 3000; 4000; 5000] 6000 eq_refl eq_refl Htimes Hlate
              (onError "ECONNRESET" linkAwaiting3And4) (or_introl eq_refl))
    as ((Hs & _) & (Hc & _) & (_ & _ & Hw) & (_ & Hh)).
  exact (conj Hs (conj Hc (conj Hw Hh))).
Defined.

(** ** What a run never undoes, continued *)

Lemma onlyForward_refl s : onlyForward s s.
Proof.
  unfold onlyForward. repeat split; auto; exists []; now rewrite app_nil_r.
Qed.

Lemma onlyForward_trans s1 s2 s3 :
  onlyForward s1 s2 -> onlyForward s2 s3 -> onlyForward s1 s3.
Proof.
  intros (A1 & A2 & A3 & A4 & A5 & A6 & [w1 A7] & [l1 A8])
         (B1 & B2 & B3 & B4 & B5 & B6 & [w2 B7] & [l2 B8]).
  unfold onlyForward. rewrite B1, A1, B7, A7, B8, A8, <- !app_assoc.
  repeat split; auto; try lia; eauto.
Qed.

(** A step that keeps the fields of [sameLink] and the target, and only
    adds settlements. *)
Lemma onlyForward_sameLink s s' :
  sameLink s s' -> target s' = target s ->
  (exists settled, settlements s' = settlements s ++ settled) ->
  onlyForward s s'.
Proof.
  intros (H1 & _ & H3 & H4 & H5 & H6 & H7) Ht Hs.
  unfold onlyForward. rewrite H1, H3, H4, H5, H6, H7.
  repeat split; auto. exists []. now rewrite app_nil_r.
Qed.

Lemma onlyForward_rejectPending s : onlyForward s (rejectPending s).
Proof.
  apply onlyForward_sameLink.
  - apply rejectPending_sameLink.
  - apply rejectPending_target.
  - eexists. apply rejectPending_settlements.
Qed.

Lemma onlyForward_handleMessage now msg s s' :
  handleMessage now msg s = inr s' -> onlyForward s s'.
Proof.
  intros Hh.
  destruct (handleMessage_returns now msg s s' Hh)
    as [[_ ->]|[(p & _ & ->)|(p & _ & ->)]].
  - unfold onlyForward. simpl. repeat split; auto; exists []; now rewrite app_nil_r.
  - apply onlyForward_sameLink.
    + apply createDbResolver_sameLink.
    + unfold createDbResolver. now destruct (Tag_eqb (_tag msg) Err).
    + eexists. apply createDbResolver_tables.
  - apply onlyForward_sameLink.
    + apply applyChangesResolver_sameLink.
    + unfold applyChangesResolver. now destruct (Tag_eqb (_tag msg) Err).
    + eexists. apply applyChangesResolver_tables.
Qed.

Lemma onlyForward_callback s : onlyForward s (onPrematurelyClosed s).
Proof.
  unfold onlyForward. simpl.
  repeat split; auto; exists []; now rewrite app_nil_r.
Qed.

Lemma link_step_forward s ev : onlyForward s (linkStep s ev).
Proof.
  destruct ev as [msg|msg|now msg|e| |now| ]; simpl.
  - unfold onlyForward. simpl. repeat split; auto.
    + now exists [msg].
    + exists []. now rewrite app_nil_r.
  - unfold onlyForward. simpl. repeat split; auto.
    + now exists [msg].
    + exists []. now rewrite app_nil_r.
  - destruct (handleMessage now msg s) as [e|s'] eqn:Hh.
    + apply onlyForward_refl.
    + eapply onlyForward_handleMessage; eauto.
  - unfold onError. destruct (closed s); simpl; [apply onlyForward_refl|].
    eapply onlyForward_trans; [apply onlyForward_rejectPending|apply onlyForward_callback].
  - unfold onClose. destruct (closed s); simpl; [apply onlyForward_refl|].
    eapply onlyForward_trans; [apply onlyForward_rejectPending|apply onlyForward_callback].
  - unfold timerFires, sendPing. destruct (pingPongHandle s) eqn:Ht;
      [|apply onlyForward_refl].
    destruct (now - lastPong s >? 5000); unfold onlyForward; simpl;
      repeat split; auto; try discriminate; try congruence;
      try (exists []; now rewrite app_nil_r); now exists [ping].
  - unfold close.
    eapply onlyForward_trans; [|apply onlyForward_rejectPending].
    unfold onlyForward. simpl. repeat split; auto; exists []; now rewrite app_nil_r.
Qed.

(** X3.  Over any run from any state of the link (any mix of sends,
    inbound messages, socket events, timer firings and [close()]): the
    target of the socket never changes, so the link never reconnects; a set
    closed flag is never cleared, a destroyed socket stays destroyed and a
    cancelled timer is never restarted; the count of promises and of owner
    callbacks never decreases; and the writes and the settlements made so
    far are only added to. *)
Theorem link_only_moves_forward (evs : list LinkEvent) (s : t) :
  onlyForward s (linkRun evs s).
Proof.
  revert s. induction evs as [|ev evs IH]; intros s; [apply onlyForward_refl|].
  eapply onlyForward_trans; [apply link_step_forward|apply IH].
Qed.

Lemma link_only_moves_forward_witness :
  closed (linkRun [SocketError "ECONNRESET"; TimerFires 1000; SocketClose]
            (close freshLink)) = true /\
  pingPongHandle (linkRun [CallsSendCreateDb (createDbOnPrimary 7); TimerFires 1000]
                    (close freshLink)) = None.
Proof.
  split.
  - apply (proj1 (proj2 (link_only_moves_forward
                           [SocketError "ECONNRESET"; TimerFires 1000; SocketClose]
                           (close freshLink)))).
    reflexivity.
  - apply (proj1 (proj2 (proj2 (proj2 (link_only_moves_forward
                           [CallsSendCreateDb (createDbOnPrimary 7); TimerFires 1000]
                           (close freshLink)))))).
    reflexivity.
Defined.

(** ** After [close()] *)

Lemma shutDown_step s ev :
  shutDown s ->
  shutDown (linkStep s ev) /\
  prematurelyClosedCalls (linkStep s ev) = prematurelyClosedCalls s /\
  socketWrites (linkStep s ev) = socketWrites s ++ requestsSent [ev].
Proof.
  intros (Hc & Hh & Hd). unfold shutDown.
  destruct ev as [msg|msg|now msg|e| |now| ];
    cbn [linkStep requestsSent flat_map app]; rewrite ?app_nil_r.
  - simpl. repeat split; auto.
  - simpl. repeat split; auto.
  - destruct (handleMessage now msg s) as [e|s'] eqn:Hm; [repeat split; auto|].
    destruct (handleMessage_returns now msg s s' Hm)
      as [[_ ->]|[(p & _ & ->)|(p & _ & ->)]].
    + repeat split; auto.
    + destruct (createDbResolver_sameLink p msg s) as (H1 & _ & H3 & H4 & H5 & H6 & _).
      rewrite H1, H3, H4, H5, H6. repeat split; auto.
    + destruct (applyChangesResolver_sameLink p msg s)
        as (H1 & _ & H3 & H4 & H5 & H6 & _).
      rewrite H1, H3, H4, H5, H6. repeat split; auto.
  - unfold onError. rewrite Hc. repeat split; auto.
  - unfold onClose. rewrite Hc. repeat split; auto.
  - unfold timerFires. rewrite Hh. repeat split; auto.
  - unfold close.
    destruct (rejectPending_sameLink
                (clearInterval (socket_destroy (with_closed true s))))
      as (H1 & _ & H3 & H4 & H5 & H6 & _).
    rewrite H1, H3, H4, H5, H6. repeat split; auto.
Qed.

Lemma shutDown_run evs s :
  shutDown s ->
  shutDown (linkRun evs s) /\
  prematurelyClosedCalls (linkRun evs s) = prematurelyClosedCalls s /\
  socketWrites (linkRun evs s) = socketWrites s ++ requestsSent evs.
Proof.
  revert s. induction evs as [|ev evs IH]; intros s H.
  - simpl. rewrite app_nil_r. auto.
  - destruct (shutDown_step s ev H) as (H1 & H2 & H3).
    destruct (IH _ H1) as (I1 & I2 & I3).
    change (linkRun (ev :: evs) s) with (linkRun evs (linkStep s ev)).
    rewrite I2, I3, H2, H3, <- app_assoc. split; [exact I1|]. split; [reflexivity|].
    f_equal. unfold requestsSent. cbn [flat_map]. now rewrite app_nil_r.
Qed.

(** X4.  Once [close()] has been called, whatever happens next: the owner's
    [onPrematurelyClosed] is never called again, the timer stays cancelled
    and writes no further Ping, the socket stays destroyed and the flag
    set.  The send methods are not guarded by the flag, though: each later
    call still registers its request and hands it to the (destroyed)
    socket, and those requests are the only writes. *)
Theorem nothing_fires_after_close (evs : list LinkEvent) (s : t) :
  let s' := linkRun evs (close s) in
  closed s' = true /\ pingPongHandle s' = None /\ socketDestroyed s' = true /\
  prematurelyClosedCalls s' = prematurelyClosedCalls s /\
  socketWrites s' = socketWrites s ++ requestsSent evs /\
  (forall msg, JsMap.get (_reqid msg) (createDbRequests (linkStep s' (CallsSendCreateDb msg)))
               = Some (promises s')).
Proof.
  unfold close.
  destruct (rejectPending_sameLink
              (clearInterval (socket_destroy (with_closed true s))))
    as (H1 & _ & H3 & H4 & H5 & H6 & _).
  destruct (shutDown_run evs
              (rejectPending (clearInterval (socket_destroy (with_closed true s)))))
    as ((I1 & I2 & I3) & I4 & I5).
  { unfold shutDown. rewrite H1, H3, H4. auto. }
  simpl. rewrite I4, I5, H5, H6. repeat split; auto.
  intros msg. apply get_set_same.
Qed.

(** ** Inbound messages one at a time *)

(** X5.  A [Pong] touches nothing but the time of the last Pong, and
    restarts the timeout however stale that time was: a firing of the timer
    no more than 5000 ms after the Pong writes a Ping and keeps the timer,
    a firing later than that destroys the socket and cancels the timer. *)
Theorem pong_restarts_timeout
    (now later : Z) (msg : Msg) (s : t) (period : Z) :
  _tag msg = Pong ->
  pingPongHandle s = Some period ->
  exists s1,
    handleMessage now msg s = inr s1 /\
    lastPong s1 = now /\ sameSocket s s1 /\
    createDbRequests s1 = createDbRequests s /\
    applyChangesRequests s1 = applyChangesRequests s /\
    settlements s1 = settlements s /\
    (later - now <= 5000 ->
       socketWrites (timerFires later s1) = socketWrites s ++ [ping] /\
       pingPongHandle (timerFires later s1) = Some period) /\
    (5000 < later - now ->
       socketDestroyed (timerFires later s1) = true /\
       pingPongHandle (timerFires later s1) = None).
Proof.
  intros Htag Hlive. exists (with_lastPong now s).
  split; [unfold handleMessage; now rewrite Htag|].
  destruct (timer_step later (with_lastPong now s) period Hlive) as [Hdead Hping].
  split; [reflexivity|]. split; [repeat split|]. do 3 (split; [reflexivity|]).
  split; intros Hlater.
  - destruct (Hping Hlater) as (H1 & H2 & _). auto.
  - destruct (Hdead Hlater) as (H1 & H2 & _). auto.
Qed.

Lemma pong_restarts_timeout_witness :
  socketWrites
    (timerFires 12000
       (linkStep freshLink
          (SocketData 8000 {| _tag := Pong; _reqid := 0; payload := "" |})))
    = [ping].
Proof.
  destruct (pong_restarts_timeout 8000 12000
              {| _tag := Pong; _reqid := 0; payload := "" |} freshLink 1000
              eq_refl eq_refl) as (s1 & Hh & _ & _ & _ & _ & _ & Hping & _).
  simpl in Hh. injection Hh as <-.
  apply Hping. lia.
Defined.

(** X6.  A message that [#handleMessage] accepts does one of two
    things.  Either it is a [Pong].  Or it settles exactly one promise, which
    was pending under the request id of the message, with that very message
    ([reject] for an [Err], [resolve] otherwise), and removes the entries
    under that id from the table it was found in, the other table being left
    alone.  In both cases nothing is written to the socket, the owner is
    not called, and socket, timer and closed flag are as before. *)
Theorem inbound_message_effect (now : Z) (msg : Msg) (s s' : t) :
  handleMessage now msg s = inr s' ->
  sameSocket s s' /\
  ((_tag msg = Pong /\ lastPong s' = now /\ settlements s' = settlements s /\
    createDbRequests s' = createDbRequests s /\
    applyChangesRequests s' = applyChangesRequests s) \/
   (exists p,
      lastPong s' = lastPong s /\
      settlements s' = settlements s ++ [(p, outcome msg)] /\
      ((JsMap.get (_reqid msg) (createDbRequests s) = Some p /\
        createDbRequests s' = JsMap.delete (_reqid msg) (createDbRequests s) /\
        applyChangesRequests s' = applyChangesRequests s) \/
       (JsMap.get (_reqid msg) (applyChangesRequests s) = Some p /\
        applyChangesRequests s' = JsMap.delete (_reqid msg) (applyChangesRequests s) /\
        createDbRequests s' = createDbRequests s)))).
Proof.
  intros Hh.
  destruct (handleMessage_returns now msg s s' Hh)
    as [[Htag ->]|[(p & Hget & ->)|(p & Hget & ->)]].
  - split; [repeat split|]. left. repeat split; auto.
  - destruct (createDbResolver_tables p msg s) as (T1 & T2 & T3).
    split.
    + unfold createDbResolver. destruct (Tag_eqb (_tag msg) Err); repeat split.
    + right. exists p. split; [|split; [exact T3|left; auto]].
      unfold createDbResolver. now destruct (Tag_eqb (_tag msg) Err).
  - destruct (applyChangesResolver_tables p msg s) as (T1 & T2 & T3).
    split.
    + unfold applyChangesResolver. destruct (Tag_eqb (_tag msg) Err); repeat split.
    + right. exists p. split; [|split; [exact T3|right; auto]].
      unfold applyChangesResolver. now destruct (Tag_eqb (_tag msg) Err).
Qed.

Lemma inbound_message_effect_witness :
  exists s', handleMessage 0 (createDbOnPrimaryResponse 7) linkAwaiting7 = inr s' /\
    sameSocket linkAwaiting7 s'.
Proof.
  eexists. split; [reflexivity|].
  exact (proj1 (inbound_message_effect 0 (createDbOnPrimaryResponse 7)
                  linkAwaiting7 _ eq_refl)).
Defined.

(** ** A failed write *)

(** X7.  When the write of a request fails, its callback removes the entry
    under the id of the request and rejects the promise with the write
    error, the other table being left alone.  If the id was not pending
    before the send, the table is back to what it was; and a response
    arriving later for that id makes [#handleMessage] throw.  The same holds
    for both send methods. *)
Theorem write_failure_unregisters (msg : Msg) (e : string) (s : t) :
  let p := promises s in
  let s1 := createDbWriteFailed msg p e (afterSendCreateDb msg s) in
  let s2 := applyChangesWriteFailed msg p e (afterSendApplyChanges msg s) in
  fst (sendCreateDb msg s) = p /\ fst (sendApplyChanges msg s) = p /\
  settlements s1 = settlements s ++ [(p, RejectWriteError e)] /\
  settlements s2 = settlements s ++ [(p, RejectWriteError e)] /\
  JsMap.get (_reqid msg) (createDbRequests s1) = None /\
  JsMap.get (_reqid msg) (applyChangesRequests s2) = None /\
  applyChangesRequests s1 = applyChangesRequests s /\
  createDbRequests s2 = createDbRequests s /\
  (JsMap.get (_reqid msg) (createDbRequests s) = None ->
     createDbRequests s1 = createDbRequests s) /\
  (JsMap.get (_reqid msg) (applyChangesRequests s) = None ->
     applyChangesRequests s2 = applyChangesRequests s) /\
  (forall now reply,
     _tag reply = CreateDbOnPrimaryResponse -> _reqid reply = _reqid msg ->
     handleMessage now reply s1 = inl (ResponseForUnknownRequest (_reqid msg))) /\
  (forall now reply,
     _tag reply = ApplyChangesOnPrimaryResponse -> _reqid reply = _reqid msg ->
     handleMessage now reply s2 = inl (ResponseForUnknownRequest (_reqid msg))).
Proof.
  simpl. repeat split; auto.
  - apply get_delete_same.
  - apply get_delete_same.
  - intros Hnone. apply get_none_notin in Hnone.
    rewrite (set_absent _ _ _ Hnone). unfold JsMap.delete.
    rewrite filter_app. simpl. rewrite Z.eqb_refl. simpl. rewrite app_nil_r.
    now apply delete_absent.
  - intros Hnone. apply get_none_notin in Hnone.
    rewrite (set_absent _ _ _ Hnone). unfold JsMap.delete.
    rewrite filter_app. simpl. rewrite Z.eqb_refl. simpl. rewrite app_nil_r.
    now apply delete_absent.
  - intros now reply Htag Hid. unfold handleMessage. rewrite Htag, Hid. simpl.
    now rewrite get_delete_same.
  - intros now reply Htag Hid. unfold handleMessage. rewrite Htag, Hid. simpl.
    now rewrite get_delete_same.
Qed.

Lemma write_failure_unregisters_witness :
  createDbRequests
    (createDbWriteFailed (createDbOnPrimary 8) 1%nat "EPIPE"
       (afterSendCreateDb (createDbOnPrimary 8) linkAwaiting7))
    = createDbRequests linkAwaiting7 /\
  handleMessage 0 (createDbOnPrimaryResponse 8)
    (createDbWriteFailed (createDbOnPrimary 8) 1%nat "EPIPE"
       (afterSendCreateDb (createDbOnPrimary 8) linkAwaiting7))
    = inl (ResponseForUnknownRequest 8).
Proof.
  destruct (write_failure_unregisters (createDbOnPrimary 8) "EPIPE" linkAwaiting7)
    as (_ & _ & _ & _ & _ & _ & _ & _ & Hback & _ & Hthrow & _).
  split.
  - exact (Hback eq_refl).
  - exact (Hthrow 0 (createDbOnPrimaryResponse 8) eq_refl eq_refl).
Defined.

(** ** A request id used again while pending *)

Lemma set_replaces_promise (k : Z) (p p0 : PromiseId) (m : list (Z * PromiseId)) :
  JsMap.get k m = Some p0 -> NoDup (map snd m) -> p <> p0 ->
  ~ In p0 (map snd (JsMap.set k p m)) /\
  List.length (JsMap.set k p m) = List.length m.
Proof.
  induction m as [|[k' p'] m IH]; simpl; [discriminate|].
  intros Hget Hnd Hne. inversion Hnd as [|? ? Hp' Hnd']; subst.
  destruct (k =? k') eqn:E; simpl.
  - injection Hget as ->. split; auto. intros [H|H]; auto.
  - destruct (IH Hget Hnd' Hne) as [I1 I2]. split; [|now rewrite I2].
    intros [->|H]; auto. apply Hp'. eapply get_promise_in; eauto.
Qed.

Lemma orphaned_step p s ev : orphaned p s -> orphaned p (linkStep s ev).
Proof.
  intros (Hlt & Hpend & Hset).
  pose proof (link_step_forward s ev) as (_ & _ & _ & _ & Hpr & _).
  assert (Hsweep : forall s0, sameLink s0 (rejectPending s0) ->
            ~ In p (pendingPromises s0) -> ~ In p (settledPromises s0) ->
            ~ In p (pendingPromises (rejectPending s0)) /\
            ~ In p (settledPromises (rejectPending s0))).
  { intros s0 _ Hp0 Hs0. destruct (rejectPending_tables s0) as [T1 T2].
    split.
    - unfold pendingPromises. rewrite T1, T2. intros [].
    - unfold settledPromises. rewrite rejectPending_settlements.
      rewrite settledPromises_app, map_map. simpl. rewrite map_id.
      intros Hin. apply in_app_or in Hin. destruct Hin as [Hin|Hin]; auto.
      apply Hp0. rewrite pendingPromises_split.
      apply in_app_or in Hin. apply in_or_app.
      destruct Hin as [Hin|Hin]; [left|right]; eapply swept_incl; eauto. }
  unfold orphaned. split; [lia|].
  destruct ev as [msg|msg|now msg|e| |now| ]; cbn [linkStep].
  - rewrite pendingPromises_split in *. simpl. split; auto.
    intros Hin. apply in_app_or in Hin. destruct Hin as [Hin|Hin].
    + destruct (set_promises_in _ _ _ _ Hin) as [->|Hin']; [lia|].
      apply Hpend, in_or_app. now left.
    + apply Hpend, in_or_app. now right.
  - rewrite pendingPromises_split in *. simpl. split; auto.
    intros Hin. apply in_app_or in Hin. destruct Hin as [Hin|Hin].
    + apply Hpend, in_or_app. now left.
    + destruct (set_promises_in _ _ _ _ Hin) as [->|Hin']; [lia|].
      apply Hpend, in_or_app. now right.
  - destruct (handleMessage now msg s) as [e|s'] eqn:Hh; auto.
    rewrite pendingPromises_split in *.
    destruct (handleMessage_returns now msg s s' Hh)
      as [[_ ->]|[(q & Hget & ->)|(q & Hget & ->)]]; auto.
    + destruct (createDbResolver_tables q msg s) as (T1 & T2 & T3).
      unfold settledPromises. rewrite T1, T2, T3, map_app. simpl. split.
      * intros Hin. apply Hpend. apply in_app_or in Hin. apply in_or_app.
        destruct Hin as [Hin|Hin]; [left; eapply filter_promises_incl; eauto|now right].
      * intros Hin. apply in_app_or in Hin. destruct Hin as [Hin|[<-|[]]]; auto.
        apply Hpend, in_or_app. left. eapply get_promise_in; eauto.
    + destruct (applyChangesResolver_tables q msg s) as (T1 & T2 & T3).
      unfold settledPromises. rewrite T1, T2, T3, map_app. simpl. split.
      * intros Hin. apply Hpend. apply in_app_or in Hin. apply in_or_app.
        destruct Hin as [Hin|Hin]; [now left|right; eapply filter_promises_incl; eauto].
      * intros Hin. apply in_app_or in Hin. destruct Hin as [Hin|[<-|[]]]; auto.
        apply Hpend, in_or_app. right. eapply get_promise_in; eauto.
  - unfold onError. destruct (closed s); simpl negb; cbv iota; auto.
    exact (Hsweep s (rejectPending_sameLink s) Hpend Hset).
  - unfold onClose. destruct (closed s); simpl negb; cbv iota; auto.
    exact (Hsweep s (rejectPending_sameLink s) Hpend Hset).
  - unfold timerFires, sendPing. destruct (pingPongHandle s); auto.
    destruct (now - lastPong s >? 5000); auto.
  - unfold close. apply Hsweep; auto. apply rejectPending_sameLink.
Qed.

Lemma orphaned_run p evs s : orphaned p s -> orphaned p (linkRun evs s).
Proof.
  revert s. induction evs as [|ev evs IH]; intros s H; [exact H|].
  apply IH, orphaned_step, H.
Qed.

(** X8.  On any link reached from the constructor, a send under a request
    id that is still pending in the same table puts the new resolver in the
    place of the old one (the table keeps its size).  The promise of the
    older call is then in no table, and whatever happens afterwards
    (writes succeeding) it is never resolved or rejected: not by a reply
    with that id, which goes to the newer promise, and not by teardown. *)
Theorem reused_id_orphans_older_promise
    (port : Z) (app : option string) (id : string) (now : Z)
    (before after : list LinkEvent) (msg : Msg) (older : PromiseId) :
  let s := linkRun before (new port app id now) in
  (JsMap.get (_reqid msg) (createDbRequests s) = Some older ->
     let s1 := afterSendCreateDb msg s in
     JsMap.get (_reqid msg) (createDbRequests s1) = Some (promises s) /\
     List.length (createDbRequests s1) = List.length (createDbRequests s) /\
     ~ In older (pendingPromises s1) /\
     ~ In older (settledPromises (linkRun after s1))) /\
  (JsMap.get (_reqid msg) (applyChangesRequests s) = Some older ->
     let s1 := afterSendApplyChanges msg s in
     JsMap.get (_reqid msg) (applyChangesRequests s1) = Some (promises s) /\
     List.length (applyChangesRequests s1) = List.length (applyChangesRequests s) /\
     ~ In older (pendingPromises s1) /\
     ~ In older (settledPromises (linkRun after s1))).
Proof.
  intros s.
  destruct (promisesInOrder_run before _ (promisesInOrder_new port app id now))
    as (H1 & H2 & H3 & H4). fold s in H1, H2, H3, H4.
  rewrite pendingPromises_split in H1.
  destruct (NoDup_app_inv _ _ H1) as (N1 & N2 & N3).
  split; intros Hget s1.
  - assert (Hin : In older (map snd (createDbRequests s)))
      by (eapply get_promise_in; eauto).
    destruct (H3 older) as [Hlt Hns];
      [rewrite pendingPromises_split; apply in_or_app; now left|].
    destruct (set_replaces_promise (_reqid msg) (promises s) older
                (createDbRequests s) Hget N1) as [R1 R2]; [lia|].
    assert (Hgone : ~ In older (pendingPromises s1)).
    { rewrite pendingPromises_split. simpl. intros Hx. apply in_app_or in Hx.
      destruct Hx as [Hx|Hx]; [contradiction|exact (N3 older Hin Hx)]. }
    split; [apply get_set_same|]. split; [exact R2|]. split; [exact Hgone|].
    apply (orphaned_run older after s1). split; [simpl; lia|]. split; auto.
  - assert (Hin : In older (map snd (applyChangesRequests s)))
      by (eapply get_promise_in; eauto).
    destruct (H3 older) as [Hlt Hns];
      [rewrite pendingPromises_split; apply in_or_app; now right|].
    destruct (set_replaces_promise (_reqid msg) (promises s) older
                (applyChangesRequests s) Hget N2) as [R1 R2]; [lia|].
    assert (Hgone : ~ In older (pendingPromises s1)).
    { rewrite pendingPromises_split. simpl. intros Hx. apply in_app_or in Hx.
      destruct Hx as [Hx|Hx]; [exact (N3 older Hx Hin)|contradiction]. }
    split; [apply get_set_same|]. split; [exact R2|]. split; [exact Hgone|].
    apply (orphaned_run older after s1). split; [simpl; lia|]. split; auto.
Qed.

Lemma reused_id_orphans_older_promise_witness :
  ~ In 0%nat
      (settledPromises
         (linkRun [SocketData 5 (createDbOnPrimaryResponse 7); CallsClose]
            (afterSendCreateDb (createDbOnPrimary 7)
               (linkRun [CallsSendCreateDb (createDbOnPrimary 7)] freshLink)))).
Proof.
  destruct (reused_id_orphans_older_promise 9000 None "primary" 0
              [CallsSendCreateDb (createDbOnPrimary 7)]
              [SocketData 5 (createDbOnPrimaryResponse 7); CallsClose]
              (createDbOnPrimary 7) 0%nat) as [Hc _].
  exact (proj2 (proj2 (proj2 (Hc eq_refl)))).
Defined.

(** * Further properties of the broker *)

(** ** Messages that reach no session *)

(** X9.  A StartStreaming message always makes [#handleMessage] throw,
    before anything else and whether a session is owned or not; the
    listener logs it and calls [close()], so the only call that reaches a
    session is [close()] on the owned one; the factory is not called and
    the session reference is unchanged.  A message with any tag of the
    primary-link protocol is not rejected: the [switch] has no case for it
    and the listener returns having done nothing. *)
Theorem startStreaming_fails_other_tags_ignored
    (env : CB.Answers) (msg : Msg) (b : CB.t) :
  (_tag msg = StartStreaming ->
     CB.handleMessage env msg b = CB.Throws CB.IllegalStartStreaming b /\
     exists b',
       CB.onMessage env (DecodesTo msg) b = CB.Returns b' /\
       CB.effects b'
         = CB.effects b ++ CB.ConsoleError CB.IllegalStartStreaming
             :: match CB.syncConnection b with
                | Some c => [CB.Close c]
                | None => []
                end /\
       CB.syncConnection b' = CB.syncConnection b /\
       CB.created b' = CB.created b /\
       CB.closeCalls b' = S (CB.closeCalls b)) /\
  (In (_tag msg) [CreateDbOnPrimary; ApplyChangesOnPrimary;
                  CreateDbOnPrimaryResponse; ApplyChangesOnPrimaryResponse;
                  Ping; Pong; Err] ->
     CB.onMessage env (DecodesTo msg) b = CB.Returns b).
Proof.
  split.
  - intros Htag.
    assert (H : CB.handleMessage env msg b = CB.Throws CB.IllegalStartStreaming b).
    { unfold CB.handleMessage. now rewrite Htag. }
    split; [exact H|]. unfold CB.onMessage. rewrite H. simpl CB.tryCatch.
    eexists. split; [reflexivity|].
    destruct (close_fields (CB.perform (CB.ConsoleError CB.IllegalStartStreaming) b))
      as (C1 & _ & C3 & C4 & C5).
    rewrite C1, C3, C4, C5. simpl. rewrite <- app_assoc. repeat split.
  - intros Hin. unfold CB.onMessage, CB.handleMessage.
    simpl in Hin.
    destruct Hin as [<-|[<-|[<-|[<-|[<-|[<-|[<-|[]]]]]]]]; reflexivity.
Qed.

Lemma startStreaming_fails_other_tags_ignored_witness :
  CB.handleMessage (obliging 1%nat) startStreaming activeBroker
    = CB.Throws CB.IllegalStartStreaming activeBroker /\
  CB.onMessage (obliging 1%nat) (DecodesTo ping) activeBroker
    = CB.Returns activeBroker.
Proof.
  split.
  - exact (proj1 (proj1 (startStreaming_fails_other_tags_ignored
                           (obliging 1%nat) startStreaming activeBroker) eq_refl)).
  - apply (proj2 (startStreaming_fails_other_tags_ignored
                    (obliging 1%nat) ping activeBroker)).
    simpl. tauto.
Defined.

(** ** A session from announce to forwarding *)

(** X10.  With no session owned and collaborators that do not fail, an
    AnnouncePresence calls the Session Factory once with the room and the
    message, stores the session it produces and calls [start()] on it, in
    that order, without calling [close()].  From then on a Changes message
    is passed to [receiveChanges] and a RejectChanges message to
    [changesRejected] of that session, and nothing else happens. *)
Theorem announce_then_forward
    (env : CB.Answers) (c : CB.SyncConnection) (announce msg : Msg) (b : CB.t) :
  CB.syncConnection b = None ->
  _tag announce = AnnouncePresence ->
  CB.createSyncConnection_settles env = inl c ->
  CB.start_throws env = None ->
  exists b1,
    CB.onMessageToEnd env (DecodesTo announce) b = CB.Returns b1 /\
    CB.syncConnection b1 = Some c /\
    CB.effects b1
      = CB.effects b ++ [CB.CreateSyncConnection (CB.room b) announce; CB.Start c] /\
    CB.created b1 = CB.created b ++ [c] /\
    CB.closeCalls b1 = CB.closeCalls b /\
    (_tag msg = Changes -> CB.receiveChanges_rejects env = None ->
       CB.onMessageToEnd env (DecodesTo msg) b1
         = CB.Returns (CB.perform (CB.ReceiveChanges c msg) b1)) /\
    (_tag msg = RejectChanges -> CB.changesRejected_throws env = None ->
       CB.onMessageToEnd env (DecodesTo msg) b1
         = CB.Returns (CB.perform (CB.ChangesRejected c msg) b1)).
Proof.
  intros Hnone Htag Hfac Hstart.
  unfold CB.onMessageToEnd, CB.onMessage, CB.handleMessage.
  rewrite Htag, Hnone. simpl. unfold CB.onSettled, CB.resume.
  rewrite Hfac, Hstart. simpl.
  eexists. split; [reflexivity|]. simpl. rewrite <- app_assoc.
  repeat split.
  - intros -> Hok. simpl. unfold CB.onSettled, CB.resume. now rewrite Hok.
  - intros -> Hok. simpl. now rewrite Hok.
Qed.

Lemma announce_then_forward_witness :
  CB.syncConnection activeBroker = Some 1%nat /\
  CB.onMessageToEnd (obliging 1%nat) (DecodesTo changes) activeBroker
    = CB.Returns (CB.perform (CB.ReceiveChanges 1%nat changes) activeBroker).
Proof.
  destruct (announce_then_forward (obliging 1%nat) 1%nat announcePresence changes
              (CB.new "r1") eq_refl eq_refl eq_refl eq_refl)
    as (b1 & Hrun & Hown & _ & _ & _ & Hchanges & _).
  simpl in Hrun. injection Hrun as <-.
  split; [exact Hown|]. exact (Hchanges eq_refl eq_refl).
Defined.

(** ** Collaborators that fail *)

(** X11.  If the Session Factory rejects, the exception is logged, [close()]
    finds no session and the broker still owns none, so that a later
    AnnouncePresence calls the factory again.  If the factory succeeds and
    [start()] throws, the session has already been stored: it is closed
    but stays the owned session, and a later AnnouncePresence fails as a
    duplicate without a call of the factory. *)
Theorem announce_failures
    (env later : CB.Answers) (announce again : Msg) (b : CB.t) :
  CB.syncConnection b = None ->
  _tag announce = AnnouncePresence -> _tag again = AnnouncePresence ->
  (forall e, CB.createSyncConnection_settles env = inr e ->
     exists b1,
       CB.onMessageToEnd env (DecodesTo announce) b = CB.Returns b1 /\
       CB.syncConnection b1 = None /\ CB.created b1 = CB.created b /\
       CB.effects b1
         = CB.effects b ++ [CB.CreateSyncConnection (CB.room b) announce;
                            CB.ConsoleError (CB.Thrown e)] /\
       CB.handleMessage later again b1
         = CB.Suspends CB.AwaitCreateSyncConnection
             (CB.perform (CB.CreateSyncConnection (CB.room b) again) b1)) /\
  (forall c e, CB.createSyncConnection_settles env = inl c ->
     CB.start_throws env = Some e ->
     exists b1,
       CB.onMessageToEnd env (DecodesTo announce) b = CB.Returns b1 /\
       CB.syncConnection b1 = Some c /\ CB.created b1 = CB.created b ++ [c] /\
       CB.effects b1
         = CB.effects b ++ [CB.CreateSyncConnection (CB.room b) announce;
                            CB.Start c; CB.ConsoleError (CB.Thrown e); CB.Close c] /\
       CB.handleMessage later again b1
         = CB.Throws (CB.AlreadyStarted (CB.room b)) b1).
Proof.
  intros Hnone Htag Htag'. destruct b as [sc rm ef cr cc]. simpl in Hnone. subst sc.
  unfold CB.onMessageToEnd, CB.onMessage, CB.handleMessage, CB.onSettled, CB.resume.
  rewrite Htag, Htag'. simpl. split.
  - intros e Hfac. rewrite Hfac. simpl.
    eexists. split; [reflexivity|]. simpl. rewrite <- app_assoc. repeat split.
  - intros c e Hfac Hstart. rewrite Hfac, Hstart. simpl.
    eexists. split; [reflexivity|]. simpl. rewrite <- !app_assoc. repeat split.
Qed.

Lemma announce_failures_witness :
  exists b1,
    CB.onMessageToEnd
      {| CB.createSyncConnection_settles := inr "no such schema";
         CB.start_throws := None; CB.receiveChanges_rejects := None;
         CB.changesRejected_throws := None |}
      (DecodesTo announcePresence) (CB.new "r1") = CB.Returns b1 /\
    CB.syncConnection b1 = None.
Proof.
  destruct (announce_failures
              {| CB.createSyncConnection_settles := inr "no such schema";
                 CB.start_throws := None; CB.receiveChanges_rejects := None;
                 CB.changesRejected_throws := None |}
              (obliging 1%nat) announcePresence announcePresence (CB.new "r1")
              eq_refl eq_refl eq_refl) as [Hrej _].
  destruct (Hrej "no such schema" eq_refl) as (b1 & H1 & H2 & _).
  exists b1. auto.
Defined.

(** X12.  When [receiveChanges] rejects or [changesRejected] throws, the
    exception is logged and the owned session is closed, after the call
    that failed and in that order; the session stays the owned one, no
    session is created and nothing escapes the listener. *)
Theorem forwarding_failures
    (env : CB.Answers) (c : CB.SyncConnection) (msg : Msg) (e : string) (b : CB.t) :
  CB.syncConnection b = Some c ->
  (_tag msg = Changes -> CB.receiveChanges_rejects env = Some e ->
     exists b1,
       CB.onMessageToEnd env (DecodesTo msg) b = CB.Returns b1 /\
       CB.effects b1
         = CB.effects b ++ [CB.ReceiveChanges c msg; CB.ConsoleError (CB.Thrown e);
                            CB.Close c] /\
       CB.syncConnection b1 = Some c /\ CB.created b1 = CB.created b) /\
  (_tag msg = RejectChanges -> CB.changesRejected_throws env = Some e ->
     exists b1,
       CB.onMessageToEnd env (DecodesTo msg) b = CB.Returns b1 /\
       CB.effects b1
         = CB.effects b ++ [CB.ChangesRejected c msg; CB.ConsoleError (CB.Thrown e);
                            CB.Close c] /\
       CB.syncConnection b1 = Some c /\ CB.created b1 = CB.created b).
Proof.
  intros Hown. destruct b as [sc rm ef cr cc]. simpl in Hown. subst sc.
  unfold CB.onMessageToEnd, CB.onMessage, CB.handleMessage, CB.onSettled, CB.resume.
  split; intros Htag Hfail; rewrite Htag; simpl; rewrite Hfail; simpl;
    (eexists; split; [reflexivity|]); simpl; rewrite <- !app_assoc;
    repeat split.
Qed.

Lemma forwarding_failures_witness :
  exists b1,
    CB.onMessageToEnd
      {| CB.createSyncConnection_settles := inl 1%nat;
         CB.start_throws := None; CB.receiveChanges_rejects := Some "db is locked";
         CB.changesRejected_throws := None |}
      (DecodesTo changes) activeBroker = CB.Returns b1 /\
    CB.syncConnection b1 = Some 1%nat.
Proof.
  destruct (forwarding_failures
              {| CB.createSyncConnection_settles := inl 1%nat;
                 CB.start_throws := None;
                 CB.receiveChanges_rejects := Some "db is locked";
                 CB.changesRejected_throws := None |}
              1%nat changes "db is locked" activeBroker eq_refl) as [Hch _].
  destruct (Hch eq_refl eq_refl) as (b1 & H1 & _ & H3 & _).
  exists b1. auto.
Defined.

(** ** [close()] again and again *)

Lemma closeTimes_fields n b :
  CB.syncConnection (closeTimes n b) = CB.syncConnection b /\
  CB.created (closeTimes n b) = CB.created b /\
  CB.closeCalls (closeTimes n b) = (n + CB.closeCalls b)%nat /\
  CB.effects (closeTimes n b)
    = CB.effects b ++ match CB.syncConnection b with
                      | Some c => repeat (CB.Close c) n
                      | None => []
                      end.
Proof.
  induction n as [|n (I1 & I2 & I3 & I4)]; simpl.
  - destruct (CB.syncConnection b); rewrite app_nil_r; auto.
  - destruct (close_fields (closeTimes n b)) as (C1 & _ & C3 & C4 & C5).
    unfold closeTimes in *. simpl. rewrite C1, C3, C4, C5, I1, I2, I3, I4.
    repeat split; auto.
    destruct (CB.syncConnection b) as [c|]; rewrite <- app_assoc; auto.
    f_equal. simpl. symmetry. apply repeat_cons.
Qed.

(** X13.  [close()] does not remember that it ran: with a session owned,
    every call of [close()] calls [close()] on that session once more, so
    [n] calls (from the listener's [catch], a close event and an error
    event of the websocket alike) close the session [n] times; with no
    session owned they do nothing.  The session reference is the same
    afterwards. *)
Theorem close_repeats (n : nat) (b : CB.t) (conn : CB.Connection) :
  (forall c, CB.syncConnection b = Some c ->
     CB.effects (closeTimes n b) = CB.effects b ++ repeat (CB.Close c) n) /\
  (CB.syncConnection b = None -> CB.effects (closeTimes n b) = CB.effects b) /\
  CB.syncConnection (closeTimes n b) = CB.syncConnection b /\
  CB.closeCalls (closeTimes n b) = (n + CB.closeCalls b)%nat /\
  CB.broker (CB.step conn CB.WsClose) = CB.close (CB.broker conn) /\
  CB.broker (CB.step conn CB.WsError) = CB.close (CB.broker conn).
Proof.
  destruct (closeTimes_fields n b) as (H1 & H2 & H3 & H4).
  split; [|split; [|repeat split; auto]].
  - intros c Hc. now rewrite H4, Hc.
  - intros Hnone. now rewrite H4, Hnone, app_nil_r.
Qed.

Lemma close_repeats_witness :
  CB.effects (closeTimes 3 activeBroker)
    = CB.effects activeBroker ++ [CB.Close 1%nat; CB.Close 1%nat; CB.Close 1%nat] /\
  CB.effects (closeTimes 3 (CB.new "r1")) = [].
Proof.
  split.
  - exact (proj1 (close_repeats 3 activeBroker (CB.accept "r1")) 1%nat eq_refl).
  - exact (proj1 (proj2 (close_repeats 3 (CB.new "r1") (CB.accept "r1"))) eq_refl).
Defined.

(** ** Whole runs of a connection *)

Lemma knownSessionsOnly_perform e b :
  knownSessionsOnly b ->
  (forall c, sessionOf e = Some c -> CB.syncConnection b = Some c) ->
  knownSessionsOnly (CB.perform e b).
Proof.
  intros [H1 H2] He. split; simpl; auto.
  intros e' c Hin Hs. apply in_app_or in Hin. destruct Hin as [Hin|[<-|[]]]; eauto.
Qed.

Lemma knownSessionsOnly_close b : knownSessionsOnly b -> knownSessionsOnly (CB.close b).
Proof.
  intros [H1 H2]. destruct b as [sc rm ef cr cc]. unfold CB.close. simpl in *.
  destruct sc as [c|]; split; simpl; auto.
  intros e' c' Hin Hs. apply in_app_or in Hin. destruct Hin as [Hin|[<-|[]]]; eauto.
Qed.

Lemma knownSessionsOnly_tryCatch r :
  knownSessionsOnly (CB.brokerOf r) -> knownSessionsOnly (CB.brokerOf (CB.tryCatch r)).
Proof.
  destruct r as [b|e b|a b]; simpl; auto. intros H.
  apply knownSessionsOnly_close, knownSessionsOnly_perform; auto. discriminate.
Qed.

Lemma knownSessionsOnly_handleMessage env msg b :
  knownSessionsOnly b -> knownSessionsOnly (CB.brokerOf (CB.handleMessage env msg b)).
Proof.
  intros H. unfold CB.handleMessage.
  destruct (_tag msg), (CB.syncConnection b) as [c|] eqn:E; simpl; auto.
  all: try (destruct (CB.changesRejected_throws env); simpl).
  all: apply knownSessionsOnly_perform; auto; simpl; congruence.
Qed.

Lemma knownSessionsOnly_resume env a b :
  knownSessionsOnly b -> knownSessionsOnly (CB.brokerOf (CB.resume env a b)).
Proof.
  intros [H1 H2]. destruct a; simpl.
  - destruct (CB.createSyncConnection_settles env) as [c|e]; [|split; auto].
    assert (K : knownSessionsOnly
                  (CB.perform (CB.Start c)
                     {| CB.syncConnection := Some c; CB.room := CB.room b;
                        CB.effects := CB.effects b;
                        CB.created := CB.created b ++ [c];
                        CB.closeCalls := CB.closeCalls b |})).
    { split; simpl.
      - intros e' c' Hin Hs. apply in_or_app. apply in_app_or in Hin.
        destruct Hin as [Hin|[<-|[]]]; [left; eauto|].
        injection Hs as <-. right. now left.
      - intros c' [= <-]. apply in_or_app. right. now left. }
    destruct (CB.start_throws env); exact K.
  - destruct (CB.receiveChanges_rejects env); split; auto.
Qed.

Lemma owned_stays_owned_step conn ev :
  CB.syncConnection (CB.broker conn) <> None ->
  CB.syncConnection (CB.broker (CB.step conn ev)) <> None.
Proof.
  intros H. destruct conn as [[sc rm ef cr cc] sus]. simpl in H.
  destruct sc as [c|]; [clear H|contradiction].
  destruct ev as [env [msg|reason]|env a| | ]; simpl; try discriminate.
  - unfold CB.handleMessage. simpl.
    destruct (_tag msg); simpl; try discriminate.
    destruct (CB.changesRejected_throws env); simpl; discriminate.
  - destruct (existsb (CB.Await_eqb a) sus); simpl; try discriminate.
    unfold CB.onSettled, CB.resume.
    destruct a;
      [destruct (CB.createSyncConnection_settles env);
         [destruct (CB.start_throws env)|]
      |destruct (CB.receiveChanges_rejects env)]; simpl; discriminate.
Qed.

Lemma knownSessionsOnly_step conn ev :
  knownSessionsOnly (CB.broker conn) -> knownSessionsOnly (CB.broker (CB.step conn ev)).
Proof.
  intros H. destruct ev as [env [msg|reason]|env a| | ]; simpl; auto.
  - pose proof (knownSessionsOnly_tryCatch _
                  (knownSessionsOnly_handleMessage env msg _ H)) as K.
    destruct (CB.tryCatch (CB.handleMessage env msg (CB.broker conn))); exact K.
  - destruct (existsb (CB.Await_eqb a) (CB.suspended conn)); simpl; auto.
    apply knownSessionsOnly_tryCatch, knownSessionsOnly_resume, H.
  - now apply knownSessionsOnly_close.
  - now apply knownSessionsOnly_close.
Qed.

(** X14.  On any run of a connection (frames, settlements of awaited
    promises, close and error events, in any order): every call of
    [start], [receiveChanges], [changesRejected] or [close] is made on a
    session that the Session Factory produced for this broker, the owned
    session is one of those, and once a session is owned the broker never
    goes back to owning none. *)
Theorem broker_calls_known_sessions
    (evs more : list CB.Event) (room : string) :
  let conn := CB.run evs (CB.accept room) in
  knownSessionsOnly (CB.broker conn) /\
  (CB.syncConnection (CB.broker conn) <> None ->
     CB.syncConnection (CB.broker (CB.run more conn)) <> None).
Proof.
  split.
  - assert (Inv : forall c, knownSessionsOnly (CB.broker c) ->
                            knownSessionsOnly (CB.broker (CB.run evs c))).
    { induction evs as [|ev evs' IH]; intros c H; [exact H|].
      apply IH, knownSessionsOnly_step, H. }
    apply Inv. split; simpl; [intros e c []|discriminate].
  - generalize (CB.run evs (CB.accept room)).
    induction more as [|ev more' IH]; intros c H; [exact H|].
    apply IH, owned_stays_owned_step, H.
Qed.

Lemma broker_calls_known_sessions_witness :
  CB.syncConnection
    (CB.broker
       (CB.run [CB.WsClose; CB.WsMessage (obliging 2%nat) (DecodesTo startStreaming)]
          (CB.run twoAnnouncesOverlapping (CB.accept "r1")))) <> None.
Proof.
  apply (proj2 (broker_calls_known_sessions twoAnnouncesOverlapping
                  [CB.WsClose; CB.WsMessage (obliging 2%nat) (DecodesTo startStreaming)]
                  "r1")).
  discriminate.
Defined.

Lemma settledOn_step c conn ev :
  settledOn c conn ->
  settledOn c (CB.step conn ev) /\
  CB.created (CB.broker (CB.step conn ev)) = CB.created (CB.broker conn) /\
  filter isFactoryCall (CB.effects (CB.broker (CB.step conn ev)))
    = filter isFactoryCall (CB.effects (CB.broker conn)).
Proof.
  intros [Hown Hsus]. destruct conn as [b sus]. simpl in *.
  destruct b as [sc rm ef cr cc]. simpl in Hown. subst sc.
  unfold settledOn.
  destruct ev as [env [msg|reason]|env a| | ]; simpl.
  - unfold CB.handleMessage. simpl.
    destruct (_tag msg); simpl; rewrite ?filter_app, ?app_nil_r; simpl;
      rewrite ?app_nil_r; auto.
    + repeat split; auto. intros Hin. apply in_app_or in Hin.
      destruct Hin as [Hin|[Hin|[]]]; [auto|discriminate].
    + destruct (CB.changesRejected_throws env); simpl;
        rewrite ?filter_app, ?app_nil_r; simpl; rewrite ?app_nil_r; auto.
  - auto.
  - destruct (existsb (CB.Await_eqb a) sus) eqn:Ex; simpl; auto.
    destruct a.
    + exfalso. apply Hsus. apply existsb_exists in Ex.
      destruct Ex as [x [Hx Hxa]]. now destruct x.
    + assert (Hrem : ~ In CB.AwaitCreateSyncConnection
                       (CB.removeFirst CB.AwaitReceiveChanges sus)).
      { clear Ex. induction sus as [|x sus IH]; simpl; auto.
        destruct x; simpl.
        - exfalso. apply Hsus. now left.
        - intros Hin. apply Hsus. now right. }
      unfold CB.onSettled, CB.resume.
      destruct (CB.receiveChanges_rejects env); simpl;
        rewrite ?filter_app, ?app_nil_r; simpl; rewrite ?app_nil_r; auto.
  - rewrite ?filter_app; simpl; rewrite ?app_nil_r; auto.
  - rewrite ?filter_app; simpl; rewrite ?app_nil_r; auto.
Qed.

(** X15.  Once a session is owned and no listener is waiting for the
    Session Factory, nothing that happens on the connection replaces it: on
    every further run the owned session is the same one, the factory is not
    called again and produces no session.  (The second session of C6 needs a
    listener that was already past the null check.) *)
Theorem owned_session_is_kept
    (c : CB.SyncConnection) (conn : CB.Connection) (evs : list CB.Event) :
  settledOn c conn ->
  CB.syncConnection (CB.broker (CB.run evs conn)) = Some c /\
  CB.created (CB.broker (CB.run evs conn)) = CB.created (CB.broker conn) /\
  filter isFactoryCall (CB.effects (CB.broker (CB.run evs conn)))
    = filter isFactoryCall (CB.effects (CB.broker conn)).
Proof.
  revert conn. induction evs as [|ev evs IH]; intros conn H.
  - destruct H. auto.
  - destruct (settledOn_step c conn ev H) as (H1 & H2 & H3).
    destruct (IH _ H1) as (I1 & I2 & I3).
    change (CB.run (ev :: evs) conn) with (CB.run evs (CB.step conn ev)).
    rewrite I2, I3, H2, H3. auto.
Qed.

Lemma owned_session_is_kept_witness :
  CB.syncConnection
    (CB.broker
       (CB.run [CB.WsMessage (obliging 2%nat) (DecodesTo announcePresence);
                CB.Settled (obliging 2%nat) CB.AwaitCreateSyncConnection;
                CB.WsMessage (obliging 2%nat) (DecodesTo changes)]
          {| CB.broker := activeBroker; CB.suspended := [] |}))
    = Some 1%nat.
Proof.
  apply (owned_session_is_kept 1%nat {| CB.broker := activeBroker; CB.suspended := [] |}).
  split; [reflexivity|]. intros [].
Defined.

(** * Sending, and replies that come too late *)

(** X16.  [sendCreateDb] hands out the next promise, registers it under the
    request id of the message, whatever was registered there, and writes
    the message; the requests pending under other ids, the apply-changes
    table and the settlements are untouched.  [sendApplyChanges] does the
    same with the tables exchanged.  Neither looks at the closed flag. *)
Theorem send_registers (msg : Msg) (s : t) (other : Z) :
  other <> _reqid msg ->
  (let s1 := afterSendCreateDb msg s in
   fst (sendCreateDb msg s) = promises s /\
   promises s1 = S (promises s) /\
   JsMap.get (_reqid msg) (createDbRequests s1) = Some (promises s) /\
   JsMap.get other (createDbRequests s1) = JsMap.get other (createDbRequests s) /\
   applyChangesRequests s1 = applyChangesRequests s /\
   socketWrites s1 = socketWrites s ++ [msg] /\
   settlements s1 = settlements s /\ closed s1 = closed s) /\
  (let s2 := afterSendApplyChanges msg s in
   fst (sendApplyChanges msg s) = promises s /\
   promises s2 = S (promises s) /\
   JsMap.get (_reqid msg) (applyChangesRequests s2) = Some (promises s) /\
   JsMap.get other (applyChangesRequests s2)
     = JsMap.get other (applyChangesRequests s) /\
   createDbRequests s2 = createDbRequests s /\
   socketWrites s2 = socketWrites s ++ [msg] /\
   settlements s2 = settlements s /\ closed s2 = closed s).
Proof.
  intros Hne. split; simpl; repeat split; auto using get_set_same, get_set_other.
Qed.

Lemma send_registers_witness :
  JsMap.get 7 (createDbRequests (afterSendCreateDb (createDbOnPrimary 8) linkAwaiting7))
    = Some 0%nat /\
  JsMap.get 8 (createDbRequests (afterSendCreateDb (createDbOnPrimary 8) linkAwaiting7))
    = Some 1%nat.
Proof.
  assert (Hne : 7 <> _reqid (createDbOnPrimary 8)) by (simpl; lia).
  destruct (send_registers (createDbOnPrimary 8) linkAwaiting7 7 Hne)
    as [(_ & _ & Hnew & Hold & _) _].
  split; [exact Hold|exact Hnew].
Defined.

(** X17.  After a teardown the tables are empty, so a reply that arrives
    late is fatal: once [close()] has run, or an error or close event has
    been handled with the closed flag unset, every
    [CreateDbOnPrimaryResponse], [ApplyChangesOnPrimaryResponse] and [Err]
    makes [#handleMessage] throw, whatever its request id, while a [Pong]
    is still accepted. *)
Theorem late_reply_is_fatal (now : Z) (msg : Msg) (e : string) (s s' : t) :
  s' = close s \/ (closed s = false /\ (s' = onError e s \/ s' = onClose s)) ->
  (_tag msg = CreateDbOnPrimaryResponse ->
     handleMessage now msg s' = inl (ResponseForUnknownRequest (_reqid msg))) /\
  (_tag msg = ApplyChangesOnPrimaryResponse ->
     handleMessage now msg s' = inl (ResponseForUnknownRequest (_reqid msg))) /\
  (_tag msg = Err ->
     handleMessage now msg s' = inl (ErrorForUnknownRequest (_reqid msg))) /\
  (_tag msg = Pong -> handleMessage now msg s' = inr (with_lastPong now s')).
Proof.
  intros Hs'.
  assert (Hempty : createDbRequests s' = [] /\ applyChangesRequests s' = []).
  { destruct Hs' as [Hs'|[Hopen [Hs'|Hs']]]; subst s'.
    - apply rejectPending_tables.
    - rewrite onError_open by assumption. apply rejectPending_tables.
    - rewrite onClose_open by assumption. apply rejectPending_tables. }
  destruct Hempty as [H1 H2]. unfold handleMessage. rewrite H1, H2.
  repeat split; intros ->; reflexivity.
Qed.

Lemma late_reply_is_fatal_witness :
  handleMessage 10 (createDbOnPrimaryResponse 7)
    (onError "ECONNRESET" linkAwaiting7)
    = inl (ResponseForUnknownRequest 7).
Proof.
  apply (proj1 (late_reply_is_fatal 10 (createDbOnPrimaryResponse 7) "ECONNRESET"
                  linkAwaiting7 (onError "ECONNRESET" linkAwaiting7)
                  (or_intror (conj eq_refl (or_introl eq_refl))))).
  reflexivity.
Defined.
